(** * Actor-critic modules of ppo_caps/core.py

    A shallow embedding of [src/ppo/ppo_caps/core.py]: the feed-forward
    network builder [mlp], the helper [discount_cumsum], the [Actor] interface
    with its Gaussian and Beta implementations, the critic, and the composite
    [MLPActorCritic] with its [step] and [act] methods.

    A tensor entry is a real number or NaN ([num]); arithmetic, comparisons
    and [clamp] treat NaN as the tensor library does, and the constructors
    and [log_prob] of the distributions check their arguments as the
    distribution library does.  Rounding and the infinities of the
    floating-point types are outside this model: the bounds stated on tensor
    entries are not strict, and what [_distribution] and [step] without
    [eval] give is stated of the calls that return.  A tensor is a shape
    together with its entries in row-major order, as the tensor library
    stores it. *)

From Stdlib Require Import Reals Lra Lia List Bool Arith ZArith.
Import ListNotations.

(** ** Exceptions and results *)

Inductive exn : Type :=
| NotImplementedError
| RuntimeError
| ValueError
| IndexError.

Inductive result (A : Type) : Type :=
| Ok (a : A)
| Raise (e : exn).
Arguments Ok {A} a.
Arguments Raise {A} e.

Definition result_bind {A B} (r : result A) (k : A -> result B) : result B :=
  match r with
  | Ok a => k a
  | Raise e => Raise e
  end.

(** ** Vectors of reals *)

Definition rsum (l : list R) : R := fold_right Rplus 0%R l.

(** Inner product; the shorter argument decides how many terms there are. *)
Definition dot (u v : list R) : R :=
  rsum (map (fun p => (fst p * snd p)%R) (combine u v)).

(** ** scipy.signal.lfilter on a one-dimensional signal

    [lfilter b a x] is the filter
    [a0*y(n) = b0*x(n) + b1*x(n-1) + ... - a1*y(n-1) - ...] with zero initial
    conditions.  [xh] and [yh] hold the inputs and outputs seen so far, the
    most recent first. *)

Fixpoint lfilter_run (b a_tail : list R) (a0 : R) (xs xh yh : list R)
  : list R :=
  match xs with
  | [] => []
  | x :: xs' =>
      let xh' := x :: xh in
      let y := ((dot b xh' - dot a_tail yh) / a0)%R in
      y :: lfilter_run b a_tail a0 xs' xh' (y :: yh)
  end.

Definition lfilter (b a x : list R) : result (list R) :=
  match b, a with
  | [], _ => Raise ValueError
  | _ :: _, [] => Raise ValueError
  | _ :: _, a0 :: a_tail =>
      if Req_dec_T a0 0 then Raise ValueError
      else Ok (lfilter_run b a_tail a0 x [] [])
  end.

(** ** discount_cumsum (core.py, lines 32-47) *)

Definition discount_cumsum (x : list R) (discount : R) : result (list R) :=
  result_bind (lfilter [1%R] [1%R; (- discount)%R] (rev x))
              (fun y => Ok (rev y)).

(** The recurrence the filter runs, one output after the other. *)
Fixpoint accumulate (d : R) (xs : list R) (prev : R) : list R :=
  match xs with
  | [] => []
  | x :: xs' => let y := (x + d * prev)%R in y :: accumulate d xs' y
  end.

(** The docstring of [discount_cumsum], read from the last entry backwards. *)
Fixpoint discounted_sums (d : R) (x : list R) : list R :=
  match x with
  | [] => []
  | a :: t =>
      let r := discounted_sums d t in (a + d * hd 0%R r)%R :: r
  end.

(** [f] maps a vector and a discount to the discounted cumulative sums. *)
Definition computes_discounted_sums
  (f : list R -> R -> result (list R)) : Prop :=
  forall x d, exists y,
    f x d = Ok y /\
    length y = length x /\
    forall i, i < length x ->
      nth i y 0%R =
      sum_f_R0 (fun k => (d ^ k * nth (i + k) x 0)%R) (length x - 1 - i).

(** The operation of the file that takes a vector and a discount
    (core.py, line 32). *)
Definition vector_discount_operations
  : list (list R -> R -> result (list R)) :=
  [discount_cumsum].

(** ** Numbers

    An entry of a tensor: a real number, or NaN. *)

Inductive num : Type :=
| Real (r : R)
| NaN.

(** An operation on entries gives NaN as soon as one of its arguments is
    NaN. *)
Definition num_op1 (f : R -> R) (x : num) : num :=
  match x with
  | Real r => Real (f r)
  | NaN => NaN
  end.

Definition num_op2 (f : R -> R -> R) (x y : num) : num :=
  match x, y with
  | Real a, Real b => Real (f a b)
  | _, _ => NaN
  end.

Definition num_op3 (f : R -> R -> R -> R) (x y z : num) : num :=
  match x, y, z with
  | Real a, Real b, Real c => Real (f a b c)
  | _, _, _ => NaN
  end.

Definition nadd : num -> num -> num := num_op2 Rplus.
Definition nmul : num -> num -> num := num_op2 Rmult.

(** Division.  What the tensor library gives for a divisor 0 is outside the
    model; the one divisor of the file, in [MLPBetaActor._mean], is never
    0, as is proved below. *)
Definition ndiv : num -> num -> num := num_op2 Rdiv.

Definition Rltb (x y : R) : bool := if Rlt_dec x y then true else false.

Definition Rleb (x y : R) : bool := if Rle_dec x y then true else false.

(** [x < y] and [x <= y]: false as soon as an argument is NaN. *)
Definition nltb (x y : num) : bool :=
  match x, y with
  | Real a, Real b => Rltb a b
  | _, _ => false
  end.

Definition nleb (x y : num) : bool :=
  match x, y with
  | Real a, Real b => Rleb a b
  | _, _ => false
  end.

(** [torch.isnan] on one entry. *)
Definition isnan (x : num) : bool :=
  match x with
  | NaN => true
  | Real _ => false
  end.

Definition nsum (l : list num) : num := fold_right nadd (Real 0) l.

Definition ndot (u v : list num) : num :=
  nsum (map (fun p => nmul (fst p) (snd p)) (combine u v)).

(** ** Tensors

    A tensor is its shape and its entries in row-major order. *)

Record tensor : Type := mkTensor { t_shape : list nat; t_data : list num }.

Definition numel (s : list nat) : nat := fold_right Nat.mul 1 s.

Definition tensor_wf (t : tensor) : Prop :=
  length (t_data t) = numel (t_shape t).

(** [shape[:-1]] and [shape[-1]] of a shape of at least one dimension. *)
Definition split_last (s : list nat) : option (list nat * nat) :=
  match rev s with
  | [] => None
  | k :: b => Some (rev b, k)
  end.

(** Row [r] of entries laid out in rows of [k]. *)
Definition row (k r : nat) (data : list num) : list num :=
  firstn k (skipn (r * k) data).

Definition tensor_map (f : num -> num) (t : tensor) : tensor :=
  mkTensor (t_shape t) (map f (t_data t)).

(** [torch.sum(torch.isnan(t))]. *)
Definition count_nan (t : tensor) : nat :=
  length (filter isnan (t_data t)).

(** [torch.clamp(t, min=lo, max=hi)]: a NaN entry stays NaN. *)
Definition clamp_entry (lo hi : R) : num -> num :=
  num_op1 (fun x => Rmin (Rmax x lo) hi).

Definition clamp (t : tensor) (lo hi : R) : tensor :=
  tensor_map (clamp_entry lo hi) t.

(** [torch.squeeze(t, -1)]: drops the last dimension when its size is 1. *)
Definition squeeze_last (t : tensor) : tensor :=
  match split_last (t_shape t) with
  | Some (b, 1) => mkTensor b (t_data t)
  | _ => t
  end.

(** [t.sum(axis=-1)]; a zero-dimensional tensor is its own sum. *)
Definition sum_last (t : tensor) : tensor :=
  match split_last (t_shape t) with
  | Some (b, k) =>
      mkTensor b (map (fun r => nsum (row k r (t_data t))) (seq 0 (numel b)))
  | None => t
  end.

(** [t[0]]. *)
Definition first_item (t : tensor) : result tensor :=
  match t_shape t with
  | [] => Raise IndexError
  | 0 :: _ => Raise IndexError
  | S _ :: s => Ok (mkTensor s (firstn (numel s) (t_data t)))
  end.

(** *** Broadcasting *)

Fixpoint broadcast_rev (r1 r2 : list nat) : option (list nat) :=
  match r1, r2 with
  | [], _ => Some r2
  | _, [] => Some r1
  | a :: r1', b :: r2' =>
      match broadcast_rev r1' r2' with
      | None => None
      | Some r =>
          if a =? b then Some (a :: r)
          else if a =? 1 then Some (b :: r)
          else if b =? 1 then Some (a :: r)
          else None
      end
  end.

(** [torch.broadcast_shapes(s1, s2)]: the shapes are aligned on the right. *)
Definition broadcast_shapes (s1 s2 : list nat) : result (list nat) :=
  match broadcast_rev (rev s1) (rev s2) with
  | Some r => Ok (rev r)
  | None => Raise RuntimeError
  end.

(** Entries of a tensor of shape [s] seen in shape [t], both of one rank:
    a dimension of size 1 is repeated, any other is kept. *)
Fixpoint expand_data (s t : list nat) (data : list num) : list num :=
  match s, t with
  | a :: s', b :: t' =>
      if a =? b
      then flat_map (fun r => expand_data s' t' (row (numel s') r data))
                    (seq 0 b)
      else concat (repeat (expand_data s' t' data) b)
  | _, _ => data
  end.

Definition pad_shape (rank : nat) (s : list nat) : list nat :=
  repeat 1 (rank - length s) ++ s.

(** [t.expand(target)]. *)
Definition expand (t : tensor) (target : list nat) : tensor :=
  mkTensor target
    (expand_data (pad_shape (length target) (t_shape t)) target (t_data t)).

(** [torch.broadcast_tensors(a, b)]. *)
Definition broadcast2 (a b : tensor) : result (tensor * tensor) :=
  result_bind (broadcast_shapes (t_shape a) (t_shape b))
    (fun s => Ok (expand a s, expand b s)).

Definition map2 {A B C} (f : A -> B -> C) (u : list A) (v : list B)
  : list C :=
  map (fun p => f (fst p) (snd p)) (combine u v).

(** An entry-wise binary operator such as [+] or [/] on two tensors. *)
Definition tensor_binop (f : num -> num -> num) (a b : tensor)
  : result tensor :=
  result_bind (broadcast2 a b)
    (fun ab => Ok (mkTensor (t_shape (fst ab))
                            (map2 f (t_data (fst ab)) (t_data (snd ab))))).

(** [torch.nn.functional.linear(x, W, b)]: [x @ W.T + b] on the last axis of
    [x], for a weight of shape (out, in) and a bias of shape (out,). *)
Definition F_linear (x W b : tensor) : result tensor :=
  match t_shape W, split_last (t_shape x) with
  | [o; i], Some (batch, k) =>
      if (k =? i) && (length (t_shape b) =? 1) && (hd 0 (t_shape b) =? o)
      then Ok (mkTensor (batch ++ [o])
                 (flat_map
                    (fun r =>
                       map (fun c => nadd (ndot (row i c (t_data W))
                                                (row i r (t_data x)))
                                          (nth c (t_data b) (Real 0)))
                           (seq 0 o))
                    (seq 0 (numel batch))))
      else Raise RuntimeError
  | _, _ => Raise RuntimeError
  end.

(** ** Modules of the network library *)

(** The activation classes [nn.Identity], [nn.Tanh], [nn.ReLU], [nn.ELU]. *)
Inductive Activation : Type :=
| Identity
| Tanh
| ReLU
| ELU.

(** [nn.ELU()] has [alpha = 1.0]. *)
Definition elu (x : R) : R :=
  if Rlt_dec 0 x then x else (1 * (exp x - 1))%R.

Definition activation_fn (a : Activation) : num -> num :=
  match a with
  | Identity => fun x => x
  | Tanh => num_op1 tanh
  | ReLU => num_op1 (fun x => Rmax 0 x)
  | ELU => num_op1 elu
  end.

(** Parameters live in a store; a module holds the places of its own. *)
Definition param : Type := nat.

Record Linear : Type := mkLinear {
  in_features : nat;
  out_features : nat;
  weight : param;
  bias : param
}.

Inductive module : Type :=
| Linear_module (l : Linear)
| Activation_module (a : Activation).

Definition Sequential : Type := list module.

Definition parameter (ps : list tensor) (p : param) : result tensor :=
  match nth_error ps p with
  | Some t => Ok t
  | None => Raise RuntimeError
  end.

Definition Linear_forward (ps : list tensor) (l : Linear) (x : tensor)
  : result tensor :=
  result_bind (parameter ps (weight l)) (fun W =>
  result_bind (parameter ps (bias l)) (fun b =>
  F_linear x W b)).

Definition module_forward (ps : list tensor) (m : module) (x : tensor)
  : result tensor :=
  match m with
  | Linear_module l => Linear_forward ps l x
  | Activation_module a => Ok (tensor_map (activation_fn a) x)
  end.

Fixpoint Sequential_forward (ps : list tensor) (net : Sequential)
  (x : tensor) : result tensor :=
  match net with
  | [] => Ok x
  | m :: rest =>
      result_bind (module_forward ps m x) (Sequential_forward ps rest)
  end.

(** ** Distributions *)

Inductive distribution : Type :=
| Normal (loc scale : tensor)
| Beta (concentration1 concentration0 : tensor).

(** The checks of the arguments of a distribution: every entry positive,
    which a NaN is not, and no entry NaN. *)
Definition all_positive (t : tensor) : bool :=
  forallb (nltb (Real 0)) (t_data t).

Definition no_nan (t : tensor) : bool :=
  forallb (fun x => negb (isnan x)) (t_data t).

(** [Normal(loc, scale)]: the arguments are broadcast; [loc] must hold no
    NaN and [scale] has to be positive, or the constructor raises
    [ValueError]. *)
Definition torch_Normal (loc scale : tensor) : result distribution :=
  result_bind (broadcast2 loc scale) (fun ls =>
  if no_nan (fst ls) && all_positive (snd ls)
  then Ok (Normal (fst ls) (snd ls))
  else Raise ValueError).

(** [Beta(concentration1, concentration0)]: the arguments are broadcast and
    stacked; the check of the stacked tensor raises [RuntimeError] when it has
    no entry (its reshape to rows is ambiguous), and [ValueError] when an
    entry is not positive. *)
Definition torch_Beta (c1 c0 : tensor) : result distribution :=
  result_bind (broadcast2 c1 c0) (fun cc =>
  match t_data (fst cc) with
  | [] => Raise RuntimeError
  | _ :: _ =>
      if all_positive (fst cc) && all_positive (snd cc)
      then Ok (Beta (fst cc) (snd cc))
      else Raise ValueError
  end).

(** The supports the distributions check a value against in [log_prob]:
    the closed unit interval for [Beta], the real numbers for [Normal]. *)
Definition beta_support (x : num) : bool :=
  nleb (Real 0) x && nleb x (Real 1).

Definition normal_support (x : num) : bool := negb (isnan x).

(** ** Module classes of core.py: their fields *)

Record MLPGaussianActor : Type := mkMLPGaussianActor {
  log_std : param;
  mu_net : Sequential
}.

Record MLPBetaActor : Type := mkMLPBetaActor {
  alpha_net : Sequential;
  beta_net : Sequential
}.

Record MLPCritic : Type := mkMLPCritic { v_net : Sequential }.

Record MLPActorCritic : Type := mkMLPActorCritic {
  ac_pi : MLPBetaActor;
  ac_v : MLPCritic
}.

(** A [gym.spaces.Box], of which only the shape is read. *)
Record Box : Type := mkBox { box_shape : list nat }.

(** What [MLPActorCritic.step] returns: one array when [eval] is set, a
    5-tuple otherwise. *)
Inductive step_output : Type :=
| Eval_action (a : tensor)
| Rollout (a v logp_a mu mu_bar : tensor).

(** [MLPCritic.forward] (core.py, lines 140-141). *)
Definition MLPCritic_forward (ps : list tensor) (self : MLPCritic)
  (obs : tensor) : result tensor :=
  result_bind (Sequential_forward ps (v_net self) obs)
    (fun y => Ok (squeeze_last y)).

(** [MLPGaussianActor._mean] (core.py, lines 84-86). *)
Definition MLPGaussianActor_mean (ps : list tensor) (self : MLPGaussianActor)
  (obs : tensor) : result tensor :=
  Sequential_forward ps (mu_net self) obs.

(** [t + 2]. *)
Definition plus_two (t : tensor) : tensor :=
  tensor_map (fun x => nadd x (Real 2)) t.

(** [MLPBetaActor._mean] (core.py, lines 126-129). *)
Definition MLPBetaActor_mean (ps : list tensor) (self : MLPBetaActor)
  (obs : tensor) : result tensor :=
  result_bind (Sequential_forward ps (alpha_net self) obs) (fun a0 =>
  let alpha := plus_two a0 in
  result_bind (Sequential_forward ps (beta_net self) obs) (fun b0 =>
  let beta := plus_two b0 in
  result_bind (tensor_binop nadd alpha beta) (fun s =>
  tensor_binop ndiv alpha s))).

(** ** Invariants of the modules over a parameter store *)

(** The parameters of a [Linear] are in the store with the shapes
    [nn.Linear] gave them. *)
Definition Linear_wf (ps : list tensor) (l : Linear) : Prop :=
  exists W b,
    nth_error ps (weight l) = Some W /\
    nth_error ps (bias l) = Some b /\
    t_shape W = [out_features l; in_features l] /\
    t_shape b = [out_features l].

(** [net] takes [i] features to [o] features: each [Linear] takes the width
    its predecessor left. *)
Fixpoint chain_wf (ps : list tensor) (i : nat) (net : Sequential) (o : nat)
  : Prop :=
  match net with
  | [] => i = o
  | Linear_module l :: rest =>
      in_features l = i /\ Linear_wf ps l /\
      chain_wf ps (out_features l) rest o
  | Activation_module _ :: rest => chain_wf ps i rest o
  end.

(** The last module of [net] is an instance of the activation [a]. *)
Definition output_activation_of (net : Sequential) (a : Activation) : Prop :=
  exists front, net = front ++ [Activation_module a].

Definition MLPGaussianActor_wf (ps : list tensor) (self : MLPGaussianActor)
  (obs_dim act_dim : nat) : Prop :=
  chain_wf ps obs_dim (mu_net self) act_dim /\
  exists ls,
    nth_error ps (log_std self) = Some ls /\
    t_shape ls = [act_dim] /\ tensor_wf ls.

Definition MLPBetaActor_wf (ps : list tensor) (self : MLPBetaActor)
  (obs_dim act_dim : nat) : Prop :=
  chain_wf ps obs_dim (alpha_net self) act_dim /\
  output_activation_of (alpha_net self) ELU /\
  chain_wf ps obs_dim (beta_net self) act_dim /\
  output_activation_of (beta_net self) ELU.

Definition MLPCritic_wf (ps : list tensor) (self : MLPCritic)
  (obs_dim : nat) : Prop :=
  chain_wf ps obs_dim (v_net self) 1.

Definition MLPActorCritic_wf (ps : list tensor) (self : MLPActorCritic)
  (obs_dim act_dim : nat) : Prop :=
  MLPBetaActor_wf ps (ac_pi self) obs_dim act_dim /\
  MLPCritic_wf ps (ac_v self) obs_dim.

(** The modules [mlp] builds when the store holds [p0] parameters: the layers
    [a], [a+1], ..., [a+n-1]. *)
Fixpoint mlp_layers (sizes : list nat) (activation output_activation : Activation)
  (a n p0 : nat) : list module :=
  match n with
  | 0 => []
  | S n' =>
      Linear_module (mkLinear (nth a sizes 0) (nth (a + 1) sizes 0) p0 (p0 + 1))
      :: Activation_module
           (if a + 2 <? length sizes then activation else output_activation)
      :: mlp_layers sizes activation output_activation (a + 1) n' (p0 + 2)
  end.

(** The action among the values [step] returns. *)
Definition action_of (r : step_output) : tensor :=
  match r with
  | Eval_action a => a
  | Rollout a _ _ _ _ => a
  end.

(** Bounds on one entry: a real number within the bounds; the same, or NaN. *)
Definition within (lo hi : R) (x : num) : Prop :=
  match x with
  | Real r => (lo <= r <= hi)%R
  | NaN => False
  end.

Definition within_or_nan (lo hi : R) (x : num) : Prop :=
  match x with
  | Real r => (lo <= r <= hi)%R
  | NaN => True
  end.

Definition at_least (lo : R) (x : num) : Prop :=
  match x with
  | Real r => (lo <= r)%R
  | NaN => False
  end.

Definition at_least_or_nan (lo : R) (x : num) : Prop :=
  match x with
  | Real r => (lo <= r)%R
  | NaN => True
  end.

Definition entries_within (lo hi : R) (t : tensor) : Prop :=
  Forall (within lo hi) (t_data t).

Definition entries_within_or_nan (lo hi : R) (t : tensor) : Prop :=
  Forall (within_or_nan lo hi) (t_data t).

Definition entries_at_least (lo : R) (t : tensor) : Prop :=
  Forall (at_least lo) (t_data t).

Definition entries_at_least_or_nan (lo : R) (t : tensor) : Prop :=
  Forall (at_least_or_nan lo) (t_data t).

(** ** A small instance

    The modules [MLPActorCritic] builds for one observation feature, one
    action feature and no hidden layer, over a store of six parameters with
    entries chosen by hand; a batch of two observations, and the same batch
    with a NaN for its first observation. *)

Definition demo_params : list tensor :=
  [ mkTensor [1; 1] [Real 1]; mkTensor [1] [Real 0];
    mkTensor [1; 1] [Real 2]; mkTensor [1] [Real 1];
    mkTensor [1; 1] [Real 3]; mkTensor [1] [Real 0] ].

Definition demo_actor : MLPBetaActor :=
  mkMLPBetaActor
    [Linear_module (mkLinear 1 1 0 1); Activation_module ELU]
    [Linear_module (mkLinear 1 1 2 3); Activation_module ELU].

Definition demo_critic : MLPCritic :=
  mkMLPCritic [Linear_module (mkLinear 1 1 4 5); Activation_module Identity].

Definition demo_actor_critic : MLPActorCritic :=
  mkMLPActorCritic demo_actor demo_critic.

Definition demo_obs : tensor := mkTensor [2; 1] [Real 5; Real 6].

Definition demo_nan_obs : tensor := mkTensor [2; 1] [NaN; Real 6].

(** A batch of no observation. *)
Definition demo_empty_obs : tensor := mkTensor [0; 1] [].

(** The modules [MLPGaussianActor] builds for one observation feature, one
    action feature and no hidden layer: [log_std] first, then the weight and
    the bias of [mu_net]. *)
Definition demo_gaussian_params : list tensor :=
  [ mkTensor [1] [Real (-0.5)];
    mkTensor [1; 1] [Real 1]; mkTensor [1] [Real 0] ].

Definition demo_gaussian : MLPGaussianActor :=
  mkMLPGaussianActor 0
    [Linear_module (mkLinear 1 1 1 2); Activation_module Identity].

(** ** combined_shape (core.py, lines 14-17)

    The argument [shape] is omitted ([None]), a number, or a sequence of
    dimensions. *)

Inductive shape_arg : Type :=
| Scalar_shape (n : nat)
| Tuple_shape (s : list nat).

Definition combined_shape (length : nat) (shape : option shape_arg)
  : list nat :=
  match shape with
  | None => [length]
  | Some (Scalar_shape n) => [length; n]
  | Some (Tuple_shape s) => length :: s
  end.

(** The number of entries one item of shape [shape] holds. *)
Definition shape_arg_numel (shape : option shape_arg) : nat :=
  match shape with
  | None => 1
  | Some (Scalar_shape n) => n
  | Some (Tuple_shape s) => numel s
  end.

(** ** count_vars (core.py, lines 28-29)

    [module.parameters()] yields the parameters of a module in the order they
    were registered: its own first, then those of its sub-modules. *)

Definition module_parameters (m : module) : list param :=
  match m with
  | Linear_module l => [weight l; bias l]
  | Activation_module _ => []
  end.

Definition Sequential_parameters (net : Sequential) : list param :=
  flat_map module_parameters net.

Definition MLPGaussianActor_parameters (self : MLPGaussianActor)
  : list param :=
  log_std self :: Sequential_parameters (mu_net self).

Definition MLPBetaActor_parameters (self : MLPBetaActor) : list param :=
  Sequential_parameters (alpha_net self) ++
  Sequential_parameters (beta_net self).

Definition MLPCritic_parameters (self : MLPCritic) : list param :=
  Sequential_parameters (v_net self).

Definition MLPActorCritic_parameters (self : MLPActorCritic) : list param :=
  MLPBetaActor_parameters (ac_pi self) ++ MLPCritic_parameters (ac_v self).

Fixpoint read_parameters (ps : list tensor) (params : list param)
  : result (list tensor) :=
  match params with
  | [] => Ok []
  | p :: rest =>
      result_bind (parameter ps p) (fun t =>
      result_bind (read_parameters ps rest) (fun ts => Ok (t :: ts)))
  end.

(** [count_vars(module)], given what [module.parameters()] yields. *)
Definition count_vars (ps : list tensor) (params : list param)
  : result nat :=
  result_bind (read_parameters ps params) (fun ts =>
  Ok (list_sum (map (fun p => numel (t_shape p)) ts))).

(** The weights and biases of the layers between consecutive sizes. *)
Fixpoint mlp_param_count (sizes : list nat) : nat :=
  match sizes with
  | [] => 0
  | a :: rest =>
      match rest with
      | [] => 0
      | b :: _ => b * a + b + mlp_param_count rest
      end
  end.

Definition module_param_count (m : module) : nat :=
  match m with
  | Linear_module l => out_features l * in_features l + out_features l
  | Activation_module _ => 0
  end.

(** The first module of [net] is a [Linear]. *)
Definition first_is_Linear (net : Sequential) : Prop :=
  match net with
  | Linear_module _ :: _ => True
  | _ => False
  end.

(** What [_distribution] prints when an observation holds a NaN. *)
Inductive message : Type :=
| GotNanInObs (obs : tensor).

Section Model.

(** The random number generator of the tensor library with its draws of one
    entry, and the log-densities of the distribution library. *)
Variable RNG : Type.
Variable rand_uniform : R -> R -> RNG -> R * RNG.
Variable rand_normal : R -> R -> RNG -> R * RNG.
Variable rand_beta : R -> R -> RNG -> R * RNG.
Variable normal_log_prob : R -> R -> R -> R.
Variable beta_log_prob : R -> R -> R -> R.

(** ** The world a call runs in

    The parameter store, the random number generator, the standard output and
    the gradient mode. *)

Record world : Type := mkWorld {
  w_params : list tensor;
  w_rng : RNG;
  w_stdout : list message;
  w_grad : bool
}.

(** A call returns or raises, and leaves a world behind in both cases. *)
Definition M (A : Type) : Type := world -> result A * world.

Definition ret {A} (a : A) : M A := fun w => (Ok a, w).

Definition raise {A} (e : exn) : M A := fun w => (Raise e, w).

Definition bind {A B} (m : M A) (k : A -> M B) : M B :=
  fun w =>
    match m w with
    | (Ok a, w') => k a w'
    | (Raise e, w') => (Raise e, w')
    end.

Notation "x <- m ;; k" := (bind m (fun x => k))
  (at level 61, m at next level, right associativity).
Notation "m ;; k" := (bind m (fun _ => k))
  (at level 61, right associativity).

(** A computation that only reads the parameters. *)
Definition reading {A} (f : list tensor -> result A) : M A :=
  fun w => (f (w_params w), w).

Definition lift {A} (r : result A) : M A := fun w => (r, w).

Definition with_rng {A} (f : RNG -> A * RNG) : M A :=
  fun w =>
    let (a, g) := f (w_rng w) in
    (Ok a, mkWorld (w_params w) g (w_stdout w) (w_grad w)).

Definition print (m : message) : M unit :=
  fun w =>
    (Ok tt, mkWorld (w_params w) (w_rng w) (w_stdout w ++ [m]) (w_grad w)).

(** [torch.nn.Parameter(t)]: a new place in the store. *)
Definition new_parameter (t : tensor) : M param :=
  fun w =>
    (Ok (length (w_params w)),
     mkWorld (w_params w ++ [t]) (w_rng w) (w_stdout w) (w_grad w)).

Definition set_grad (mode : bool) (w : world) : world :=
  mkWorld (w_params w) (w_rng w) (w_stdout w) mode.

(** [with torch.no_grad(): body]: the gradient mode is restored on the way
    out, also when [body] raises. *)
Definition no_grad {A} (body : M A) : M A :=
  fun w =>
    let (r, w') := body (set_grad false w) in
    (r, set_grad (w_grad w) w').

(** One draw per entry of [l], in order. *)
Fixpoint draw_each {A} (f : A -> RNG -> num * RNG) (l : list A) (g : RNG)
  : list num * RNG :=
  match l with
  | [] => ([], g)
  | a :: l' =>
      let (x, g1) := f a g in
      let (xs, g2) := draw_each f l' g1 in
      (x :: xs, g2)
  end.

(** A draw of the library is a real number. *)
Definition real_draw (f : RNG -> R * RNG) (g : RNG) : num * RNG :=
  let (x, g') := f g in (Real x, g').

(** A draw from a distribution of two parameters; a distribution the
    constructors return has no NaN parameter. *)
Definition draw_with (f : R -> R -> RNG -> R * RNG) (p : num * num)
  (g : RNG) : num * RNG :=
  match p with
  | (Real a, Real b) => real_draw (f a b) g
  | _ => (NaN, g)
  end.

(** One entry of [torch.normal(mean, std)]: the noise is drawn and added to
    the mean, which gives NaN when the mean is NaN. *)
Definition normal_entry (std : R) (m : num) (g : RNG) : num * RNG :=
  match m with
  | Real r => real_draw (rand_normal r std) g
  | NaN => (NaN, snd (rand_normal 0 std g))
  end.

(** [torch.normal(mean, std)] for a tensor [mean] and a number [std]. *)
Definition torch_normal (mean : tensor) (std : R) : M tensor :=
  xs <- with_rng (draw_each (normal_entry std) (t_data mean)) ;;
  ret (mkTensor (t_shape mean) xs).

(** [pi.sample()]. *)
Definition dist_sample (d : distribution) : M tensor :=
  match d with
  | Normal loc scale =>
      xs <- with_rng (draw_each (draw_with rand_normal)
                        (combine (t_data loc) (t_data scale))) ;;
      ret (mkTensor (t_shape loc) xs)
  | Beta c1 c0 =>
      xs <- with_rng (draw_each (draw_with rand_beta)
                        (combine (t_data c1) (t_data c0))) ;;
      ret (mkTensor (t_shape c1) xs)
  end.

(** [log_prob] of a distribution of two parameters with density [f]: the
    value has to be broadcastable with the parameters and to lie in the
    support, or [ValueError] is raised. *)
Definition log_prob_entries (f : R -> R -> R -> R) (support : num -> bool)
  (p1 p2 value : tensor) : result tensor :=
  match broadcast_shapes (t_shape p1) (t_shape value) with
  | Raise _ => Raise ValueError
  | Ok s =>
      if forallb support (t_data value)
      then Ok (mkTensor s
                 (map (fun pv => num_op3 f (fst (fst pv)) (snd (fst pv))
                                         (snd pv))
                      (combine (combine (t_data (expand p1 s))
                                        (t_data (expand p2 s)))
                               (t_data (expand value s)))))
      else Raise ValueError
  end.

(** [pi.log_prob(value)]. *)
Definition dist_log_prob (d : distribution) (value : tensor)
  : result tensor :=
  match d with
  | Normal loc scale =>
      log_prob_entries normal_log_prob normal_support loc scale value
  | Beta c1 c0 =>
      log_prob_entries beta_log_prob beta_support c1 c0 value
  end.

(** ** nn.Linear and mlp *)

Definition init_bound (fan_in : nat) : R :=
  if fan_in =? 0 then 0%R else (1 / sqrt (INR fan_in))%R.

(** [nn.Linear(i, o)]: a weight of shape (o, i) and a bias of shape (o,),
    both drawn uniformly between [- init_bound i] and [init_bound i]. *)
Definition nn_Linear (i o : nat) : M Linear :=
  let draw := fun _ : unit =>
                real_draw (rand_uniform (- init_bound i) (init_bound i)) in
  W <- with_rng (draw_each draw (repeat tt (o * i))) ;;
  pw <- new_parameter (mkTensor [o; i] W) ;;
  b <- with_rng (draw_each draw (repeat tt o)) ;;
  pb <- new_parameter (mkTensor [o] b) ;;
  ret (mkLinear i o pw pb).

(** [sizes[j]]. *)
Definition index (sizes : list nat) (j : nat) : M nat :=
  match nth_error sizes j with
  | Some n => ret n
  | None => raise IndexError
  end.

(** [range(n)]. *)
Definition range (n : Z) : list nat := seq 0 (Z.to_nat n).

(** The loop of [mlp] over the remaining values [js] of [j]. *)
Fixpoint mlp_loop (sizes : list nat) (activation output_activation : Activation)
  (js : list nat) (layers : list module) : M (list module) :=
  match js with
  | [] => ret layers
  | j :: js' =>
      let act :=
        if (Z.of_nat j <? Z.of_nat (length sizes) - 2)%Z
        then activation else output_activation in
      n_in <- index sizes j ;;
      n_out <- index sizes (j + 1) ;;
      lin <- nn_Linear n_in n_out ;;
      mlp_loop sizes activation output_activation js'
               (layers ++ [Linear_module lin; Activation_module act])
  end.

(** [mlp] (core.py, lines 20-25); [None] stands for an omitted
    [output_activation]. *)
Definition mlp (sizes : list nat) (activation : Activation)
  (output_activation : option Activation) : M Sequential :=
  let output_activation :=
    match output_activation with
    | Some a => a
    | None => Identity
    end in
  mlp_loop sizes activation output_activation
           (range (Z.of_nat (length sizes) - 1)) [].

(** ** Actor (core.py, lines 50-66) *)

Class Actor (A : Type) : Type := {
  _distribution : A -> tensor -> M distribution;
  _log_prob_from_distribution : A -> distribution -> tensor -> M tensor
}.

(** [Actor.forward]; [None] stands for an omitted [act]. *)
Definition Actor_forward {A} `{Actor A} (self : A) (obs : tensor)
  (act : option tensor) : M (distribution * option tensor) :=
  pi <- _distribution self obs ;;
  logp_a <- match act with
            | Some a =>
                l <- _log_prob_from_distribution self pi a ;; ret (Some l)
            | None => ret None
            end ;;
  ret (pi, logp_a).

(** The class [Actor] itself implements neither method. *)
Inductive AbstractActor : Type := abstract_actor.

#[export] Instance Actor_AbstractActor : Actor AbstractActor := {
  _distribution := fun _ _ => raise NotImplementedError;
  _log_prob_from_distribution := fun _ _ _ => raise NotImplementedError
}.

(** The test of the observation that opens every [_distribution]. *)
Definition nan_check (obs : tensor) : M unit :=
  if negb (count_nan obs =? 0) then print (GotNanInObs obs) else ret tt.

(** The world that test leaves: the one it found, with the observation
    printed when it holds a NaN. *)
Definition nan_checked (obs : tensor) (w : world) : world :=
  if count_nan obs =? 0 then w
  else mkWorld (w_params w) (w_rng w) (w_stdout w ++ [GotNanInObs obs])
               (w_grad w).

(** ** MLPGaussianActor (core.py, lines 68-89) *)

Definition MLPGaussianActor_init (obs_dim act_dim : nat)
  (hidden_sizes : list nat) (activation : Activation) : M MLPGaussianActor :=
  let log_std :=
    mkTensor [act_dim] (map (nmul (Real (-0.5))) (repeat (Real 1) act_dim)) in
  p <- new_parameter log_std ;;
  net <- mlp ([obs_dim] ++ hidden_sizes ++ [act_dim]) activation None ;;
  ret (mkMLPGaussianActor p net).

Definition MLPGaussianActor_distribution (self : MLPGaussianActor)
  (obs : tensor) : M distribution :=
  nan_check obs ;;
  mu <- reading (fun ps => Sequential_forward ps (mu_net self) obs) ;;
  ls <- reading (fun ps => parameter ps (log_std self)) ;;
  let std := tensor_map (num_op1 exp) ls in
  lift (torch_Normal mu std).

Definition MLPGaussianActor_log_prob_from_distribution
  (self : MLPGaussianActor) (pi : distribution) (act : tensor) : M tensor :=
  lp <- lift (dist_log_prob pi act) ;;
  ret (sum_last lp).

#[export] Instance Actor_MLPGaussianActor : Actor MLPGaussianActor := {
  _distribution := MLPGaussianActor_distribution;
  _log_prob_from_distribution := MLPGaussianActor_log_prob_from_distribution
}.

(** [MLPGaussianSquashedActor] (core.py, lines 91-111) hands [mu] and
    [log_std] to [SquashedDiagGaussianDistribution] of the module
    [distributions], which core.py imports and does not define; nothing below
    concerns it. *)

(** ** MLPBetaActor (core.py, lines 113-132) *)

Definition MLPBetaActor_init (obs_dim act_dim : nat)
  (hidden_sizes : list nat) (activation : Activation) : M MLPBetaActor :=
  a_net <- mlp ([obs_dim] ++ hidden_sizes ++ [act_dim]) activation (Some ELU) ;;
  b_net <- mlp ([obs_dim] ++ hidden_sizes ++ [act_dim]) activation (Some ELU) ;;
  ret (mkMLPBetaActor a_net b_net).

Definition MLPBetaActor_distribution (self : MLPBetaActor) (obs : tensor)
  : M distribution :=
  nan_check obs ;;
  a0 <- reading (fun ps => Sequential_forward ps (alpha_net self) obs) ;;
  let alpha := plus_two a0 in
  b0 <- reading (fun ps => Sequential_forward ps (beta_net self) obs) ;;
  let beta := plus_two b0 in
  lift (torch_Beta alpha beta).

Definition MLPBetaActor_log_prob_from_distribution
  (self : MLPBetaActor) (pi : distribution) (act : tensor) : M tensor :=
  lp <- lift (dist_log_prob pi act) ;;
  ret (sum_last lp).

#[export] Instance Actor_MLPBetaActor : Actor MLPBetaActor := {
  _distribution := MLPBetaActor_distribution;
  _log_prob_from_distribution := MLPBetaActor_log_prob_from_distribution
}.

(** ** MLPCritic (core.py, lines 134-141) *)

Definition MLPCritic_init (obs_dim : nat) (hidden_sizes : list nat)
  (activation : Activation) : M MLPCritic :=
  net <- mlp ([obs_dim] ++ hidden_sizes ++ [1]) activation None ;;
  ret (mkMLPCritic net).

(** ** MLPActorCritic (core.py, lines 144-180) *)

(** [space.shape[0]]. *)
Definition shape0 (space : Box) : M nat :=
  match box_shape space with
  | n :: _ => ret n
  | [] => raise IndexError
  end.

(** [None] stands for an omitted [hidden_sizes] or [activation]. *)
Definition MLPActorCritic_init (observation_space action_space : Box)
  (hidden_sizes : option (list nat)) (activation : option Activation)
  : M MLPActorCritic :=
  let hidden_sizes :=
    match hidden_sizes with Some h => h | None => [64; 64] end in
  let activation :=
    match activation with Some a => a | None => Tanh end in
  obs_dim <- shape0 observation_space ;;
  act_dim <- shape0 action_space ;;
  pi <- MLPBetaActor_init obs_dim act_dim hidden_sizes activation ;;
  v <- MLPCritic_init obs_dim hidden_sizes activation ;;
  ret (mkMLPActorCritic pi v).

(** [MLPActorCritic.step]. *)
Definition step (self : MLPActorCritic) (obs : tensor) (eval : bool)
  (std_mu : R) : M step_output :=
  no_grad
    (if eval then
       a <- reading (fun ps => MLPBetaActor_mean ps (ac_pi self) obs) ;;
       let a := clamp a (-1) 1 in
       ret (Eval_action a)
     else
       pi <- MLPBetaActor_distribution (ac_pi self) obs ;;
       a <- dist_sample pi ;;
       let a := clamp a (-1) 1 in
       logp_a <- MLPBetaActor_log_prob_from_distribution (ac_pi self) pi a ;;
       mu <- reading (fun ps => MLPBetaActor_mean ps (ac_pi self) obs) ;;
       v <- reading (fun ps => MLPCritic_forward ps (ac_v self) obs) ;;
       mu_bar <- (if Rlt_dec 0 std_mu then
                    noisy <- torch_normal obs std_mu ;;
                    reading (fun ps =>
                               MLPBetaActor_mean ps (ac_pi self) noisy)
                  else ret mu) ;;
       ret (Rollout a v logp_a mu mu_bar)).

(** [step(obs)[0]]. *)
Definition item0 (r : step_output) : result tensor :=
  match r with
  | Rollout a _ _ _ _ => Ok a
  | Eval_action a => first_item a
  end.

(** [MLPActorCritic.act]; [step] runs with its defaults [eval=False] and
    [std_mu=-1.]. *)
Definition act (self : MLPActorCritic) (obs : tensor) : M tensor :=
  r <- step self obs false (-1) ;;
  lift (item0 r).

(** A call that leaves the parameter store as it found it, whether it returns
    or raises. *)
Definition keeps_params {A} (m : M A) : Prop :=
  forall w, w_params (snd (m w)) = w_params w.

(** * Properties *)

(** ** discount_cumsum *)

Lemma dot_one_cons (x : R) (xh : list R) : dot [1%R] (x :: xh) = x.
Proof. unfold dot, rsum; simpl. lra. Qed.

Lemma dot_single_hd (c : R) (yh : list R) :
  dot [c] yh = (c * hd 0 yh)%R.
Proof. destruct yh; unfold dot, rsum; simpl; lra. Qed.

Lemma lfilter_run_accumulate (d : R) (xs xh yh : list R) :
  lfilter_run [1%R] [(- d)%R] 1 xs xh yh = accumulate d xs (hd 0%R yh).
Proof.
  revert xh yh; induction xs as [|x xs IH]; intros xh yh; simpl; [reflexivity|].
  rewrite dot_one_cons, dot_single_hd.
  replace ((x - - d * hd 0 yh) / 1)%R with (x + d * hd 0 yh)%R by (field).
  f_equal. rewrite IH. reflexivity.
Qed.

Lemma last_default_irrelevant (l : list R) (p q : R) :
  l <> [] -> last l p = last l q.
Proof.
  induction l as [|x l IH]; [congruence|]; intros _.
  destruct l as [|y l]; [reflexivity|].
  change (last (y :: l) p = last (y :: l) q). apply IH. discriminate.
Qed.

Lemma accumulate_app (d : R) (l : list R) (a p : R) :
  accumulate d (l ++ [a]) p =
  accumulate d l p ++ [(a + d * last (accumulate d l p) p)%R].
Proof.
  revert p; induction l as [|x l IH]; intros p; simpl; [reflexivity|].
  rewrite IH. f_equal. f_equal. f_equal. f_equal.
  destruct (accumulate d l (x + d * p)) eqn:E; [reflexivity|].
  f_equal. apply last_default_irrelevant. discriminate.
Qed.

Lemma last_rev_hd (l : list R) (p : R) : last l p = hd p (rev l).
Proof.
  induction l as [|x l IH] using rev_ind; [reflexivity|].
  rewrite last_last, rev_app_distr. reflexivity.
Qed.

Lemma hd_default_irrelevant (l : list R) (p q : R) :
  l <> [] -> hd p l = hd q l.
Proof. destruct l; [congruence | reflexivity]. Qed.

Lemma accumulate_rev (d : R) (x : list R) :
  rev (accumulate d (rev x) 0) = discounted_sums d x.
Proof.
  induction x as [|a t IH]; simpl; [reflexivity|].
  rewrite accumulate_app, rev_app_distr; simpl.
  rewrite last_rev_hd, IH. reflexivity.
Qed.

Lemma discount_cumsum_eq (x : list R) (d : R) :
  discount_cumsum x d = Ok (discounted_sums d x).
Proof.
  unfold discount_cumsum, lfilter.
  destruct (Req_dec_T 1 0) as [E|_]; [lra|]. simpl.
  rewrite lfilter_run_accumulate. simpl. rewrite accumulate_rev. reflexivity.
Qed.

(** The example of the docstring. *)
Lemma discount_cumsum_docstring (x0 x1 x2 discount : R) :
  discount_cumsum [x0; x1; x2] discount =
  Ok [(x0 + discount * x1 + discount ^ 2 * x2)%R;
      (x1 + discount * x2)%R;
      x2].
Proof.
  rewrite discount_cumsum_eq. simpl. f_equal.
  f_equal; [ring|]. f_equal; [ring|]. f_equal. ring.
Qed.

Lemma discounted_sums_length (d : R) (x : list R) :
  length (discounted_sums d x) = length x.
Proof. induction x; simpl; congruence. Qed.

Lemma discounted_sums_step (d : R) (x : list R) (i : nat) :
  i + 1 < length x ->
  nth i (discounted_sums d x) 0%R =
  (nth i x 0 + d * nth (i + 1) (discounted_sums d x) 0)%R.
Proof.
  revert i; induction x as [|a t IH]; intros i Hi; simpl in *; [lia|].
  destruct i as [|i]; simpl.
  - destruct (discounted_sums d t) eqn:E; simpl; [|reflexivity].
    apply (f_equal (@length R)) in E. rewrite discounted_sums_length in E.
    simpl in E. lia.
  - apply IH. lia.
Qed.

Lemma discounted_sums_last (d : R) (x : list R) :
  0 < length x ->
  nth (length x - 1) (discounted_sums d x) 0%R = nth (length x - 1) x 0%R.
Proof.
  induction x as [|a t IH]; simpl; intros H; [lia|].
  destruct t as [|b t]; simpl in *; [lra|].
  rewrite Nat.sub_0_r in IH. apply IH. lia.
Qed.

Lemma discounted_sums_closed (d : R) (x : list R) (i : nat) :
  i < length x ->
  nth i (discounted_sums d x) 0%R =
  sum_f_R0 (fun k => (d ^ k * nth (i + k) x 0)%R) (length x - 1 - i).
Proof.
  remember (length x - 1 - i) as m eqn:Hm.
  revert i x Hm; induction m as [|m IH]; intros i x Hm Hi.
  - assert (i = length x - 1) by lia. subst i.
    rewrite discounted_sums_last by lia. simpl. rewrite Nat.add_0_r. lra.
  - rewrite discounted_sums_step by lia.
    rewrite (IH (i + 1) x) by lia.
    rewrite (decomp_sum _ (S m)) by lia. simpl.
    rewrite Nat.add_0_r, scal_sum.
    f_equal; [lra|].
    apply sum_eq; intros k _.
    replace (i + 1 + k) with (i + S k) by lia. lra.
Qed.

(** C3. [discount_cumsum x d] returns a vector [y] as long as [x] with
    [y(i) = sum for k from 0 to n-1-i of d^k * x(i+k)]; its last entry is the
    last entry of [x] and [y(i) = x(i) + d * y(i+1)] before the last. *)
Theorem discount_cumsum_spec (x : list R) (d : R) :
  exists y,
    discount_cumsum x d = Ok y /\
    length y = length x /\
    (forall i, i < length x ->
       nth i y 0%R =
       sum_f_R0 (fun k => (d ^ k * nth (i + k) x 0)%R) (length x - 1 - i)) /\
    (0 < length x -> nth (length x - 1) y 0%R = nth (length x - 1) x 0%R) /\
    (forall i, i + 1 < length x ->
       nth i y 0%R = (nth i x 0 + d * nth (i + 1) y 0)%R).
Proof.
  exists (discounted_sums d x).
  split; [apply discount_cumsum_eq|].
  split; [apply discounted_sums_length|].
  split; [intros; now apply discounted_sums_closed|].
  split; [apply discounted_sums_last | intros; now apply discounted_sums_step].
Qed.
Lemma discount_cumsum_computes : computes_discounted_sums discount_cumsum.
Proof.
  intros x d. exists (discounted_sums d x).
  split; [apply discount_cumsum_eq|].
  split; [apply discounted_sums_length|].
  intros; now apply discounted_sums_closed.
Qed.

(** C1, as stated, fails: one of the operations of the file computes the
    discounted cumulative sums of a vector. *)
Lemma no_discounted_sums_operation_refuted :
  ~ (forall f, In f vector_discount_operations ->
               ~ computes_discounted_sums f).
Proof.
  intros H. apply (H discount_cumsum); [left; reflexivity|].
  apply discount_cumsum_computes.
Qed.

(** C1, amended. The file holds an operation that maps a vector [x] and a
    discount [d] to the vector of the sums of [d^k * x(i+k)]:
    [discount_cumsum]. *)
Theorem discount_cumsum_is_discounted_sums_operation :
  exists f, In f vector_discount_operations /\ computes_discounted_sums f.
Proof.
  exists discount_cumsum. split; [left; reflexivity|].
  apply discount_cumsum_computes.
Qed.

(** ** Shapes and entries of tensors *)

Lemma split_last_app (b : list nat) (k : nat) :
  split_last (b ++ [k]) = Some (b, k).
Proof.
  unfold split_last. rewrite rev_app_distr. simpl.
  rewrite rev_involutive. reflexivity.
Qed.

Lemma split_last_inv (s b : list nat) (k : nat) :
  split_last s = Some (b, k) -> s = b ++ [k].
Proof.
  unfold split_last. destruct (rev s) as [|k' b'] eqn:E; [discriminate|].
  intros H; inversion H; subst.
  rewrite <- (rev_involutive s), E. reflexivity.
Qed.

Lemma numel_app (s1 s2 : list nat) : numel (s1 ++ s2) = numel s1 * numel s2.
Proof.
  induction s1 as [|a s1 IH]; simpl; [lia|]. rewrite IH. lia.
Qed.

Lemma numel_snoc (b : list nat) (k : nat) : numel (b ++ [k]) = numel b * k.
Proof. rewrite numel_app. simpl. lia. Qed.

Lemma flat_map_length_const {A B} (f : A -> list B) (l : list A) (c : nat) :
  (forall a, In a l -> length (f a) = c) ->
  length (flat_map f l) = length l * c.
Proof.
  induction l as [|a l IH]; intros H; simpl; [reflexivity|].
  rewrite length_app, H, IH; [reflexivity | | left; reflexivity].
  intros; apply H; right; assumption.
Qed.

Lemma tensor_map_wf (f : num -> num) (t : tensor) :
  tensor_wf t -> tensor_wf (tensor_map f t).
Proof. unfold tensor_wf, tensor_map; simpl. now rewrite length_map. Qed.

Lemma F_linear_shape (x W b : tensor) (o i : nat) (batch : list nat) :
  t_shape W = [o; i] -> t_shape b = [o] -> t_shape x = batch ++ [i] ->
  exists y,
    F_linear x W b = Ok y /\ t_shape y = batch ++ [o] /\ tensor_wf y.
Proof.
  intros HW Hb Hx. unfold F_linear.
  rewrite HW, Hb, Hx, split_last_app. simpl.
  rewrite !Nat.eqb_refl. simpl.
  eexists. split; [reflexivity|]. split; [reflexivity|].
  unfold tensor_wf; simpl.
  rewrite (flat_map_length_const _ _ o).
  - rewrite length_seq, numel_snoc. reflexivity.
  - intros r _. rewrite length_map, length_seq. reflexivity.
Qed.

Lemma Linear_wf_extend (ps extra : list tensor) (l : Linear) :
  Linear_wf ps l -> Linear_wf (ps ++ extra) l.
Proof.
  intros (W & b & HW & Hb & SW & Sb). exists W, b.
  repeat split; try assumption.
  - rewrite nth_error_app1; [assumption|].
    apply nth_error_Some. congruence.
  - rewrite nth_error_app1; [assumption|].
    apply nth_error_Some. congruence.
Qed.

Lemma chain_wf_extend (ps extra : list tensor) (net : Sequential) :
  forall i o, chain_wf ps i net o -> chain_wf (ps ++ extra) i net o.
Proof.
  induction net as [|m net IH]; intros i o H; simpl in *; [assumption|].
  destruct m as [l|a].
  - destruct H as (Hi & Hl & Hc).
    repeat split; [assumption | now apply Linear_wf_extend | now apply IH].
  - now apply IH.
Qed.

Lemma Linear_forward_shape (ps : list tensor) (l : Linear) (x : tensor)
  (batch : list nat) :
  Linear_wf ps l -> t_shape x = batch ++ [in_features l] ->
  exists y,
    Linear_forward ps l x = Ok y /\
    t_shape y = batch ++ [out_features l] /\ tensor_wf y.
Proof.
  intros (W & b & HW & Hb & SW & Sb) Hx.
  unfold Linear_forward, parameter. rewrite HW, Hb. simpl.
  now apply F_linear_shape with (i := in_features l).
Qed.

(** A network that is well formed in the store maps a tensor of [i] features
    to one of [o] features, whatever the leading dimensions. *)
Lemma chain_forward (ps : list tensor) (net : Sequential) :
  forall i o x batch,
    chain_wf ps i net o -> t_shape x = batch ++ [i] -> tensor_wf x ->
    exists y,
      Sequential_forward ps net x = Ok y /\
      t_shape y = batch ++ [o] /\ tensor_wf y.
Proof.
  induction net as [|m net IH]; intros i o x batch H Hx Wx; simpl in *.
  - subst o. exists x. auto.
  - destruct m as [l|a]; simpl.
    + destruct H as (Hi & Hl & Hc). subst i.
      destruct (Linear_forward_shape ps l x batch Hl Hx) as (y & E & Sy & Wy).
      rewrite E. simpl. now apply (IH (out_features l)).
    + apply (IH i); [assumption | exact Hx | now apply tensor_map_wf].
Qed.

(** The entries of a network that ends in an activation are values of that
    activation. *)
Lemma forward_output_activation (ps : list tensor) (a : Activation)
  (front : Sequential) :
  forall x y,
    Sequential_forward ps (front ++ [Activation_module a]) x = Ok y ->
    exists z, y = tensor_map (activation_fn a) z.
Proof.
  induction front as [|m front IH]; intros x y H; simpl in *.
  - inversion H. eauto.
  - destruct (module_forward ps m x) as [x'|e]; simpl in H; [|discriminate].
    now apply IH with (x := x').
Qed.

(** ** Running a call *)

Lemma bind_run_ok {A B} (m : M A) (k : A -> M B) (w w1 : world) (a : A) :
  m w = (Ok a, w1) -> bind m k w = k a w1.
Proof. intros E. unfold bind. rewrite E. reflexivity. Qed.

Lemma bind_run_raise {A B} (m : M A) (k : A -> M B) (w w1 : world) (e : exn) :
  m w = (Raise e, w1) -> bind m k w = (Raise e, w1).
Proof. intros E. unfold bind. rewrite E. reflexivity. Qed.

Lemma bind_inv {A B} (m : M A) (k : A -> M B) (w w' : world) (r : result B) :
  bind m k w = (r, w') ->
  (exists a w1, m w = (Ok a, w1) /\ k a w1 = (r, w')) \/
  (exists e, m w = (Raise e, w') /\ r = Raise e).
Proof.
  unfold bind. destruct (m w) as [[a|e] w1]; intros H.
  - left. eauto.
  - right. inversion H; subst. eauto.
Qed.

Lemma index_run (sizes : list nat) (j : nat) (w : world) :
  j < length sizes -> index sizes j w = (Ok (nth j sizes 0), w).
Proof.
  intros H. unfold index. rewrite (nth_error_nth' sizes 0 H). reflexivity.
Qed.

(** ** nn.Linear and mlp *)

Lemma nn_Linear_run (i o : nat) (w : world) :
  exists W b w',
    nn_Linear i o w =
      (Ok (mkLinear i o (length (w_params w)) (length (w_params w) + 1)), w') /\
    w_params w' = w_params w ++ [mkTensor [o; i] W; mkTensor [o] b] /\
    w_stdout w' = w_stdout w /\ w_grad w' = w_grad w.
Proof.
  unfold nn_Linear, bind, with_rng, new_parameter, ret. simpl.
  destruct (draw_each _ (repeat tt (o * i)) (w_rng w)) as [W g1]. simpl.
  destruct (draw_each _ (repeat tt o) g1) as [b g2]. simpl.
  exists W, b. eexists. split.
  - rewrite length_app. simpl. reflexivity.
  - simpl. rewrite <- app_assoc. auto.
Qed.

Lemma act_choice (j len : nat) :
  (Z.of_nat j <? Z.of_nat len - 2)%Z = (j + 2 <? len).
Proof.
  destruct (Z.ltb_spec (Z.of_nat j) (Z.of_nat len - 2));
    destruct (Nat.ltb_spec (j + 2) len); try reflexivity; lia.
Qed.

Lemma range_len (len : nat) : range (Z.of_nat len - 1) = seq 0 (len - 1).
Proof. unfold range. f_equal. lia. Qed.

(** The loop of [mlp] over the layers [a], ..., [a+n-1] appends the modules
    [mlp_layers] names, allocates their parameters, and leaves them well
    formed in the store. *)
Lemma mlp_loop_run (sizes : list nat) (act oa : Activation) :
  forall n a layers w,
    a + n < length sizes ->
    exists w' extra,
      mlp_loop sizes act oa (seq a n) layers w =
        (Ok (layers ++ mlp_layers sizes act oa a n (length (w_params w))), w') /\
      w_params w' = w_params w ++ extra /\
      w_stdout w' = w_stdout w /\ w_grad w' = w_grad w /\
      chain_wf (w_params w') (nth a sizes 0)
               (mlp_layers sizes act oa a n (length (w_params w)))
               (nth (a + n) sizes 0).
Proof.
  induction n as [|n IH]; intros a layers w Hlen.
  - exists w, []. simpl. rewrite !app_nil_r, Nat.add_0_r. auto.
  - simpl.
    rewrite (bind_run_ok _ _ _ _ _ (index_run sizes a w ltac:(lia))).
    rewrite (bind_run_ok _ _ _ _ _ (index_run sizes (a + 1) w ltac:(lia))).
    destruct (nn_Linear_run (nth a sizes 0) (nth (a + 1) sizes 0) w)
      as (W & b & w1 & Hrun & Hps & Hout & Hgrad).
    rewrite (bind_run_ok _ _ _ _ _ Hrun). rewrite act_choice.
    destruct (IH (S a)
                (layers ++
                 [Linear_module
                    (mkLinear (nth a sizes 0) (nth (a + 1) sizes 0)
                       (length (w_params w)) (length (w_params w) + 1));
                  Activation_module
                    (if a + 2 <? length sizes then act else oa)])
                w1 ltac:(lia))
      as (w' & extra & Hloop & Hps' & Hout' & Hgrad' & Hchain).
    assert (Hl : length (w_params w1) = length (w_params w) + 2)
      by (rewrite Hps, length_app; simpl; lia).
    rewrite Hl in *.
    replace (S a) with (a + 1) in * by lia.
    exists w', ([mkTensor [nth (a + 1) sizes 0; nth a sizes 0] W;
                 mkTensor [nth (a + 1) sizes 0] b] ++ extra).
    split; [rewrite Hloop, <- app_assoc; reflexivity|].
    split; [rewrite Hps', Hps, <- app_assoc; reflexivity|].
    split; [congruence|]. split; [congruence|].
    simpl. split; [reflexivity|]. split.
    + exists (mkTensor [nth (a + 1) sizes 0; nth a sizes 0] W),
             (mkTensor [nth (a + 1) sizes 0] b). simpl.
      rewrite Hps', Hps, <- app_assoc.
      split; [rewrite nth_error_app2 by lia; rewrite Nat.sub_diag; reflexivity|].
      split; [|auto].
      rewrite nth_error_app2 by lia.
      replace (length (w_params w) + 1 - length (w_params w)) with 1 by lia.
      reflexivity.
    + replace (a + S n) with (a + 1 + n) by lia. exact Hchain.
Qed.

Lemma mlp_layers_length (sizes : list nat) (act oa : Activation) :
  forall n a p0, length (mlp_layers sizes act oa a n p0) = 2 * n.
Proof.
  induction n as [|n IH]; intros a p0; simpl; [reflexivity|].
  rewrite IH. lia.
Qed.

Lemma mlp_layers_nth (sizes : list nat) (act oa : Activation) :
  forall n a p0 k,
    k < n ->
    nth_error (mlp_layers sizes act oa a n p0) (2 * k) =
      Some (Linear_module
              (mkLinear (nth (a + k) sizes 0) (nth (a + k + 1) sizes 0)
                        (p0 + 2 * k) (p0 + 2 * k + 1))) /\
    nth_error (mlp_layers sizes act oa a n p0) (2 * k + 1) =
      Some (Activation_module
              (if a + k + 2 <? length sizes then act else oa)).
Proof.
  induction n as [|n IH]; intros a p0 k Hk; [lia|].
  destruct k as [|k].
  - simpl. rewrite !Nat.add_0_r. auto.
  - replace (2 * S k) with (S (S (2 * k))) by lia.
    replace (S (S (2 * k)) + 1) with (S (S (2 * k + 1))) by lia.
    cbn [mlp_layers nth_error].
    destruct (IH (a + 1) (p0 + 2) k ltac:(lia)) as [H1 H2].
    rewrite H1, H2.
    replace (a + 1 + k) with (a + S k) by lia.
    replace (p0 + 2 + 2 * k) with (p0 + S (S (2 * k))) by lia.
    auto.
Qed.

Lemma mlp_layers_output_activation (sizes : list nat) (act oa : Activation) :
  forall n a p0,
    a + S n + 1 = length sizes ->
    output_activation_of (mlp_layers sizes act oa a (S n) p0) oa.
Proof.
  induction n as [|n IH]; intros a p0 H.
  - simpl. destruct (Nat.ltb_spec (a + 2) (length sizes)); [lia|].
    eexists [_]. reflexivity.
  - destruct (IH (a + 1) (p0 + 2) ltac:(lia)) as [front E].
    change (mlp_layers sizes act oa a (S (S n)) p0)
      with (Linear_module
              (mkLinear (nth a sizes 0) (nth (a + 1) sizes 0) p0 (p0 + 1))
            :: Activation_module
                 (if a + 2 <? length sizes then act else oa)
            :: mlp_layers sizes act oa (a + 1) (S n) (p0 + 2)).
    rewrite E. eexists (_ :: _ :: front). reflexivity.
Qed.

(** What a call of [mlp] returns and leaves in the store. *)
Lemma mlp_run (sizes : list nat) (act : Activation) (oa : option Activation)
  (w : world) :
  exists w' extra,
    mlp sizes act oa w =
      (Ok (mlp_layers sizes act
             (match oa with Some a => a | None => Identity end)
             0 (length sizes - 1) (length (w_params w))), w') /\
    w_params w' = w_params w ++ extra /\
    w_stdout w' = w_stdout w /\ w_grad w' = w_grad w /\
    (0 < length sizes ->
     chain_wf (w_params w') (nth 0 sizes 0)
       (mlp_layers sizes act
          (match oa with Some a => a | None => Identity end)
          0 (length sizes - 1) (length (w_params w)))
       (nth (length sizes - 1) sizes 0)).
Proof.
  unfold mlp. rewrite range_len.
  destruct (Nat.eq_dec (length sizes) 0) as [E|E].
  - rewrite E. simpl. exists w, []. rewrite app_nil_r.
    repeat split; reflexivity.
  - destruct (mlp_loop_run sizes act
                (match oa with Some a => a | None => Identity end)
                (length sizes - 1) 0 [] w ltac:(lia))
      as (w' & extra & Hrun & Hps & Hout & Hgrad & Hchain).
    exists w', extra. simpl in Hrun. auto 6.
Qed.

(** C7. [mlp(sizes, activation, output_activation)] returns a [Sequential] of
    [2*(len(sizes)-1)] modules: at place [2j] a [Linear] from [sizes(j)] to
    [sizes(j+1)], at place [2j+1] an instance of [activation], and of
    [output_activation] ([Identity] when omitted) after the last [Linear];
    with fewer than two sizes the [Sequential] is empty. *)
Theorem mlp_spec (sizes : list nat) (activation : Activation)
  (output_activation : option Activation) (w : world) :
  exists net w',
    mlp sizes activation output_activation w = (Ok net, w') /\
    length net = 2 * (length sizes - 1) /\
    (forall j, j + 1 < length sizes ->
       exists l,
         nth_error net (2 * j) = Some (Linear_module l) /\
         in_features l = nth j sizes 0 /\
         out_features l = nth (j + 1) sizes 0 /\
         nth_error net (2 * j + 1) =
           Some (Activation_module
                   (if j + 2 <? length sizes then activation
                    else match output_activation with
                         | Some a => a
                         | None => Identity
                         end))) /\
    (length sizes < 2 -> net = []).
Proof.
  destruct (mlp_run sizes activation output_activation w)
    as (w' & extra & Hrun & _).
  eexists. exists w'. split; [exact Hrun|].
  split; [apply mlp_layers_length|]. split.
  - intros j Hj.
    destruct (mlp_layers_nth sizes activation
                (match output_activation with Some a => a | None => Identity end)
                (length sizes - 1) 0 (length (w_params w)) j ltac:(lia))
      as [H1 H2].
    eexists. split; [exact H1|]. simpl. auto.
  - intros Hlt. replace (length sizes - 1) with 0 by lia. reflexivity.
Qed.

(** ** The constructors establish the invariants *)

Lemma layer_sizes_length (i o : nat) (hidden : list nat) :
  length ([i] ++ hidden ++ [o]) = length hidden + 2.
Proof. simpl. rewrite length_app. simpl. lia. Qed.

Lemma layer_sizes_last (i o : nat) (hidden : list nat) :
  nth (length ([i] ++ hidden ++ [o]) - 1) ([i] ++ hidden ++ [o]) 0 = o.
Proof.
  rewrite layer_sizes_length.
  replace (length hidden + 2 - 1) with (length (i :: hidden))
    by (simpl; lia).
  change ([i] ++ hidden ++ [o]) with ((i :: hidden) ++ o :: []).
  apply nth_middle.
Qed.

(** A network built by [mlp] from the sizes [[i] + hidden + [o]]. *)
Lemma mlp_net_run (i o : nat) (hidden : list nat) (act : Activation)
  (oa : option Activation) (w : world) :
  exists net w' extra,
    mlp ([i] ++ hidden ++ [o]) act oa w = (Ok net, w') /\
    w_params w' = w_params w ++ extra /\
    w_stdout w' = w_stdout w /\ w_grad w' = w_grad w /\
    chain_wf (w_params w') i net o /\
    output_activation_of net
      (match oa with Some a => a | None => Identity end).
Proof.
  destruct (mlp_run ([i] ++ hidden ++ [o]) act oa w)
    as (w' & extra & Hrun & Hps & Hout & Hgrad & Hchain).
  eexists. exists w', extra. split; [exact Hrun|].
  repeat (split; [assumption|]). split.
  - assert (Hpos : 0 < length ([i] ++ hidden ++ [o]))
      by (rewrite layer_sizes_length; lia).
    specialize (Hchain Hpos). rewrite layer_sizes_last in Hchain.
    exact Hchain.
  - rewrite layer_sizes_length.
    replace (length hidden + 2 - 1) with (S (length hidden)) by lia.
    apply mlp_layers_output_activation.
    rewrite layer_sizes_length. lia.
Qed.

Lemma MLPCritic_init_run (obs_dim : nat) (hidden_sizes : list nat)
  (activation : Activation) (w : world) :
  exists self w' extra,
    MLPCritic_init obs_dim hidden_sizes activation w = (Ok self, w') /\
    w_params w' = w_params w ++ extra /\
    MLPCritic_wf (w_params w') self obs_dim.
Proof.
  destruct (mlp_net_run obs_dim 1 hidden_sizes activation None w)
    as (net & w' & extra & Hrun & Hps & _ & _ & Hchain & _).
  exists (mkMLPCritic net), w', extra.
  unfold MLPCritic_init. rewrite (bind_run_ok _ _ _ _ _ Hrun).
  repeat split; assumption.
Qed.

Lemma MLPBetaActor_init_run (obs_dim act_dim : nat) (hidden_sizes : list nat)
  (activation : Activation) (w : world) :
  exists self w' extra,
    MLPBetaActor_init obs_dim act_dim hidden_sizes activation w
      = (Ok self, w') /\
    w_params w' = w_params w ++ extra /\
    MLPBetaActor_wf (w_params w') self obs_dim act_dim.
Proof.
  destruct (mlp_net_run obs_dim act_dim hidden_sizes activation (Some ELU) w)
    as (a_net & w1 & e1 & Hrun1 & Hps1 & _ & _ & Hchain1 & Hout1).
  destruct (mlp_net_run obs_dim act_dim hidden_sizes activation (Some ELU) w1)
    as (b_net & w2 & e2 & Hrun2 & Hps2 & _ & _ & Hchain2 & Hout2).
  exists (mkMLPBetaActor a_net b_net), w2, (e1 ++ e2).
  unfold MLPBetaActor_init.
  rewrite (bind_run_ok _ _ _ _ _ Hrun1), (bind_run_ok _ _ _ _ _ Hrun2).
  split; [reflexivity|].
  split; [rewrite Hps2, Hps1, app_assoc; reflexivity|].
  unfold MLPBetaActor_wf; simpl.
  repeat split; try assumption.
  rewrite Hps2. now apply chain_wf_extend.
Qed.

Lemma MLPBetaActor_wf_extend (ps extra : list tensor) (self : MLPBetaActor)
  (obs_dim act_dim : nat) :
  MLPBetaActor_wf ps self obs_dim act_dim ->
  MLPBetaActor_wf (ps ++ extra) self obs_dim act_dim.
Proof.
  intros (Ha & Oa & Hb & Ob).
  repeat split; try assumption; now apply chain_wf_extend.
Qed.

Lemma MLPActorCritic_init_run (observation_space action_space : Box)
  (hidden_sizes : option (list nat)) (activation : option Activation)
  (obs_dim act_dim : nat) (s1 s2 : list nat) (w : world) :
  box_shape observation_space = obs_dim :: s1 ->
  box_shape action_space = act_dim :: s2 ->
  exists self w' extra,
    MLPActorCritic_init observation_space action_space hidden_sizes
      activation w = (Ok self, w') /\
    w_params w' = w_params w ++ extra /\
    MLPActorCritic_wf (w_params w') self obs_dim act_dim.
Proof.
  intros Ho Ha. unfold MLPActorCritic_init, shape0. rewrite Ho, Ha.
  set (h := match hidden_sizes with Some h => h | None => [64; 64] end).
  set (a := match activation with Some a => a | None => Tanh end).
  destruct (MLPBetaActor_init_run obs_dim act_dim h a w)
    as (pi & w1 & e1 & Hrun1 & Hps1 & Hwf1).
  destruct (MLPCritic_init_run obs_dim h a w1)
    as (v & w2 & e2 & Hrun2 & Hps2 & Hwf2).
  exists (mkMLPActorCritic pi v), w2, (e1 ++ e2).
  unfold bind at 1 2. simpl.
  rewrite (bind_run_ok _ _ _ _ _ Hrun1), (bind_run_ok _ _ _ _ _ Hrun2).
  split; [reflexivity|].
  split; [rewrite Hps2, Hps1, app_assoc; reflexivity|].
  split; simpl; [|assumption].
  rewrite Hps2. now apply MLPBetaActor_wf_extend.
Qed.

Lemma MLPGaussianActor_init_run (obs_dim act_dim : nat)
  (hidden_sizes : list nat) (activation : Activation) (w : world) :
  exists self w' extra,
    MLPGaussianActor_init obs_dim act_dim hidden_sizes activation w
      = (Ok self, w') /\
    w_params w' = w_params w ++ extra /\
    parameter (w_params w') (log_std self)
      = Ok (mkTensor [act_dim] (repeat (Real (-0.5)) act_dim)) /\
    MLPGaussianActor_wf (w_params w') self obs_dim act_dim.
Proof.
  unfold MLPGaussianActor_init.
  set (ls := mkTensor [act_dim]
               (map (nmul (Real (-0.5))) (repeat (Real 1) act_dim))).
  assert (Els : ls = mkTensor [act_dim] (repeat (Real (-0.5)) act_dim)).
  { unfold ls. f_equal. rewrite map_repeat. f_equal. simpl. f_equal. lra. }
  set (w1 := mkWorld (w_params w ++ [ls]) (w_rng w) (w_stdout w) (w_grad w)).
  destruct (mlp_net_run obs_dim act_dim hidden_sizes activation None w1)
    as (net & w2 & e2 & Hrun & Hps & _ & _ & Hchain & _).
  exists (mkMLPGaussianActor (length (w_params w)) net), w2, ([ls] ++ e2).
  unfold bind at 1. unfold new_parameter at 1. fold w1.
  rewrite (bind_run_ok _ _ _ _ _ Hrun). simpl in Hps.
  assert (Hnth : nth_error (w_params w2) (length (w_params w)) = Some ls).
  { rewrite Hps, <- app_assoc. rewrite nth_error_app2 by lia.
    rewrite Nat.sub_diag. reflexivity. }
  split; [reflexivity|].
  split; [rewrite Hps, <- app_assoc; reflexivity|].
  split; [unfold parameter; simpl; rewrite Hnth, Els; reflexivity|].
  split; [assumption|]. exists ls. simpl.
  split; [assumption|]. split; [reflexivity|].
  unfold tensor_wf, ls; simpl. rewrite length_map, repeat_length. lia.
Qed.

(** ** MLPCritic.forward *)

Lemma squeeze_last_singleton (y : tensor) (batch : list nat) :
  t_shape y = batch ++ [1] -> squeeze_last y = mkTensor batch (t_data y).
Proof.
  intros H. unfold squeeze_last. rewrite H, split_last_app. reflexivity.
Qed.

Lemma MLPCritic_forward_batch (ps : list tensor) (self : MLPCritic)
  (obs_dim : nat) (obs : tensor) (batch : list nat) :
  MLPCritic_wf ps self obs_dim ->
  tensor_wf obs ->
  t_shape obs = batch ++ [obs_dim] ->
  exists y,
    Sequential_forward ps (v_net self) obs = Ok y /\
    t_shape y = batch ++ [1] /\
    MLPCritic_forward ps self obs = Ok (mkTensor batch (t_data y)) /\
    length (t_data y) = numel batch.
Proof.
  intros Hwf Wobs Hobs.
  destruct (chain_forward ps (v_net self) obs_dim 1 obs batch Hwf Hobs Wobs)
    as (y & Hy & Sy & Wy).
  exists y. split; [assumption|]. split; [assumption|].
  unfold MLPCritic_forward. rewrite Hy. simpl.
  rewrite (squeeze_last_singleton y batch Sy). split; [reflexivity|].
  unfold tensor_wf in Wy. rewrite Wy, Sy, numel_snoc. lia.
Qed.

(** C6. On a batch of observations of shape (n, obs_dim) [MLPCritic.forward]
    returns the output of [v_net], of shape (n, 1), without its last
    dimension: a tensor of shape (n,) with the same [n] entries.  On one
    observation of shape (obs_dim,) it returns a tensor of no dimension. *)
Theorem MLPCritic_forward_spec (ps : list tensor) (self : MLPCritic)
  (obs_dim : nat) (obs : tensor) :
  MLPCritic_wf ps self obs_dim ->
  tensor_wf obs ->
  (forall n, t_shape obs = [n; obs_dim] ->
     exists y v,
       Sequential_forward ps (v_net self) obs = Ok y /\
       t_shape y = [n; 1] /\
       MLPCritic_forward ps self obs = Ok v /\
       t_shape v = [n] /\ t_data v = t_data y /\ length (t_data v) = n) /\
  (t_shape obs = [obs_dim] ->
     exists y v,
       Sequential_forward ps (v_net self) obs = Ok y /\
       t_shape y = [1] /\
       MLPCritic_forward ps self obs = Ok v /\
       t_shape v = [] /\ t_data v = t_data y /\ length (t_data v) = 1).
Proof.
  intros Hwf Wobs. split.
  - intros n Hobs.
    destruct (MLPCritic_forward_batch ps self obs_dim obs [n] Hwf Wobs Hobs)
      as (y & Hy & Sy & Hv & Hlen).
    exists y, (mkTensor [n] (t_data y)). simpl in *.
    repeat split; try assumption. lia.
  - intros Hobs.
    destruct (MLPCritic_forward_batch ps self obs_dim obs [] Hwf Wobs Hobs)
      as (y & Hy & Sy & Hv & Hlen).
    exists y, (mkTensor [] (t_data y)). simpl in *.
    repeat split; assumption.
Qed.

(** ** Broadcasting to a longer shape *)

Lemma row_succ (k r : nat) (data : list num) :
  row k (S r) data = row k r (skipn k data).
Proof.
  unfold row. rewrite skipn_skipn. f_equal. f_equal. lia.
Qed.

Lemma flat_map_ext_in {A B} (f g : A -> list B) (l : list A) :
  (forall a, In a l -> f a = g a) -> flat_map f l = flat_map g l.
Proof.
  induction l as [|a l IH]; intros H; simpl; [reflexivity|].
  rewrite H by (left; reflexivity). rewrite IH; [reflexivity|].
  intros; apply H; right; assumption.
Qed.

(** The rows of a matrix, one after the other, are its entries. *)
Lemma rows_concat (k : nat) :
  forall a data,
    length data = a * k ->
    flat_map (fun r => row k r data) (seq 0 a) = data.
Proof.
  induction a as [|a IH]; intros data H.
  - destruct data; [reflexivity | discriminate].
  - rewrite <- cons_seq, <- seq_shift. simpl.
    rewrite flat_map_concat_map, map_map, <- flat_map_concat_map.
    rewrite (flat_map_ext_in _ (fun r => row k r (skipn k data)))
      by (intros; apply row_succ).
    rewrite IH by (rewrite length_skipn; lia).
    unfold row. simpl. apply firstn_skipn.
Qed.

Lemma row_length (k a r : nat) (data : list num) :
  length data = a * k -> r < a -> length (row k r data) = k.
Proof.
  intros H Hr. unfold row. rewrite length_firstn, length_skipn. nia.
Qed.

Lemma expand_data_same (s : list nat) :
  forall data, length data = numel s -> expand_data s s data = data.
Proof.
  induction s as [|a s IH]; intros data H; simpl; [reflexivity|].
  rewrite Nat.eqb_refl.
  rewrite (flat_map_ext_in _ (fun r => row (numel s) r data)).
  - now apply rows_concat.
  - intros r Hr. apply in_seq in Hr. apply IH.
    apply (row_length (numel s) a); [exact H | lia].
Qed.

Lemma pad_shape_same (s : list nat) : pad_shape (length s) s = s.
Proof. unfold pad_shape. rewrite Nat.sub_diag. reflexivity. Qed.

(** A well-formed tensor expanded to its own shape is itself. *)
Lemma expand_self (t : tensor) : tensor_wf t -> expand t (t_shape t) = t.
Proof.
  intros H. unfold expand. rewrite pad_shape_same, expand_data_same by exact H.
  destruct t; reflexivity.
Qed.

Lemma numel_repeat_one (n k : nat) : numel (repeat 1 n ++ [k]) = k.
Proof. induction n as [|n IH]; simpl; lia. Qed.

Lemma concat_repeat_mul {A} (l : list A) (m n : nat) :
  concat (repeat (concat (repeat l m)) n) = concat (repeat l (n * m)).
Proof.
  induction n as [|n IH]; simpl; [reflexivity|].
  rewrite repeat_app, concat_app, IH. reflexivity.
Qed.

(** A vector of [k] entries expanded to the shape [batch + [k]] is repeated
    once per leading index. *)
Lemma expand_data_tile (k : nat) (data : list num) :
  length data = k ->
  forall batch,
    expand_data (repeat 1 (length batch) ++ [k]) (batch ++ [k]) data =
    concat (repeat data (numel batch)).
Proof.
  intros H. induction batch as [|b bs IH].
  - simpl. rewrite Nat.eqb_refl, app_nil_r.
    apply rows_concat. lia.
  - change (expand_data (repeat 1 (length (b :: bs)) ++ [k])
                        ((b :: bs) ++ [k]) data)
      with (if 1 =? b
            then flat_map
                   (fun r =>
                      expand_data (repeat 1 (length bs) ++ [k]) (bs ++ [k])
                        (row (numel (repeat 1 (length bs) ++ [k])) r data))
                   (seq 0 b)
            else concat
                   (repeat
                      (expand_data (repeat 1 (length bs) ++ [k]) (bs ++ [k])
                         data) b)).
    change (numel (b :: bs)) with (b * numel bs).
    destruct (Nat.eqb_spec 1 b) as [<-|Hb].
    + simpl. rewrite numel_repeat_one, app_nil_r, Nat.add_0_r.
      replace (row k 0 data) with data; [exact IH|].
      unfold row. simpl. rewrite <- H. symmetry. apply firstn_all.
    + rewrite IH. apply concat_repeat_mul.
Qed.

Lemma broadcast_rev_nil_r (r : list nat) : broadcast_rev r [] = Some r.
Proof. destruct r; reflexivity. Qed.

Lemma broadcast_shapes_trailing (batch : list nat) (k : nat) :
  broadcast_shapes (batch ++ [k]) [k] = Ok (batch ++ [k]).
Proof.
  unfold broadcast_shapes. rewrite rev_app_distr. simpl.
  rewrite broadcast_rev_nil_r, Nat.eqb_refl.
  simpl. rewrite rev_involutive. reflexivity.
Qed.

(** ** Entries under broadcasting and entry-wise operators *)

Lemma Forall_firstn {A} (P : A -> Prop) (n : nat) (l : list A) :
  Forall P l -> Forall P (firstn n l).
Proof.
  intros H. rewrite <- (firstn_skipn n l) in H.
  now apply Forall_app in H.
Qed.

Lemma Forall_skipn {A} (P : A -> Prop) (n : nat) (l : list A) :
  Forall P l -> Forall P (skipn n l).
Proof.
  intros H. rewrite <- (firstn_skipn n l) in H.
  now apply Forall_app in H.
Qed.

Lemma Forall_row (P : num -> Prop) (k r : nat) (data : list num) :
  Forall P data -> Forall P (row k r data).
Proof. intros H. unfold row. now apply Forall_firstn, Forall_skipn. Qed.

Lemma Forall_concat_repeat {A} (P : A -> Prop) (l : list A) (n : nat) :
  Forall P l -> Forall P (concat (repeat l n)).
Proof.
  intros H. induction n as [|n IH]; simpl; [constructor|].
  apply Forall_app. auto.
Qed.

(** Broadcasting only copies entries. *)
Lemma expand_data_Forall (P : num -> Prop) (s : list nat) :
  forall t data, Forall P data -> Forall P (expand_data s t data).
Proof.
  induction s as [|a s IH]; intros t data H; simpl; [assumption|].
  destruct t as [|b t]; [assumption|].
  destruct (a =? b).
  - apply Forall_flat_map. apply Forall_forall. intros r _.
    apply IH. now apply Forall_row.
  - apply Forall_concat_repeat. now apply IH.
Qed.

Lemma expand_Forall (P : num -> Prop) (t : tensor) (target : list nat) :
  Forall P (t_data t) -> Forall P (t_data (expand t target)).
Proof. intros H. unfold expand; simpl. now apply expand_data_Forall. Qed.

Lemma expand_In (t : tensor) (target : list nat) (x : num) :
  In x (t_data (expand t target)) -> In x (t_data t).
Proof.
  intros H.
  assert (F : Forall (fun y => In y (t_data t)) (t_data (expand t target))).
  { apply expand_Forall. apply Forall_forall. auto. }
  rewrite Forall_forall in F. now apply F.
Qed.

Lemma map2_Forall {A B C} (P : A -> Prop) (Q : B -> Prop) (S : C -> Prop)
  (f : A -> B -> C) :
  (forall x y, P x -> Q y -> S (f x y)) ->
  forall u v, Forall P u -> Forall Q v -> Forall S (map2 f u v).
Proof.
  intros Hf u. induction u as [|x u IH]; intros v Hu Hv; [constructor|].
  destruct v as [|y v]; [constructor|].
  inversion Hu; inversion Hv; subst. unfold map2; simpl.
  constructor; [now apply Hf | now apply IH].
Qed.

Lemma map2_length {A B C} (f : A -> B -> C) (u : list A) (v : list B) :
  length (map2 f u v) = Nat.min (length u) (length v).
Proof. unfold map2. rewrite length_map, length_combine. reflexivity. Qed.

Lemma tensor_binop_Forall (P Q S : num -> Prop) (f : num -> num -> num)
  (a b s : tensor) :
  (forall x y, P x -> Q y -> S (f x y)) ->
  Forall P (t_data a) -> Forall Q (t_data b) ->
  tensor_binop f a b = Ok s -> Forall S (t_data s).
Proof.
  intros Hf Ha Hb. unfold tensor_binop, broadcast2.
  destruct (broadcast_shapes (t_shape a) (t_shape b)) as [sh|e]; simpl;
    [|discriminate].
  intros E; inversion E; subst; simpl.
  apply (map2_Forall P Q S f Hf); now apply expand_data_Forall.
Qed.

Lemma broadcast_rev_same (r : list nat) : broadcast_rev r r = Some r.
Proof.
  induction r as [|a r IH]; simpl; [reflexivity|].
  rewrite IH, Nat.eqb_refl. reflexivity.
Qed.

Lemma broadcast_shapes_same (s : list nat) : broadcast_shapes s s = Ok s.
Proof.
  unfold broadcast_shapes. rewrite broadcast_rev_same, rev_involutive.
  reflexivity.
Qed.

Lemma broadcast_shapes_raise (s1 s2 : list nat) (e : exn) :
  broadcast_shapes s1 s2 = Raise e -> e = RuntimeError.
Proof.
  unfold broadcast_shapes.
  destruct (broadcast_rev (rev s1) (rev s2)); intros H; inversion H.
  reflexivity.
Qed.

(** On two well-formed tensors of one shape an entry-wise operator pairs the
    entries place by place. *)
Lemma tensor_binop_aligned (f : num -> num -> num) (a b : tensor)
  (sh : list nat) :
  tensor_wf a -> tensor_wf b -> t_shape a = sh -> t_shape b = sh ->
  tensor_binop f a b = Ok (mkTensor sh (map2 f (t_data a) (t_data b))).
Proof.
  intros Wa Wb Sa Sb. unfold tensor_binop, broadcast2.
  rewrite Sa, Sb, broadcast_shapes_same. cbn [result_bind fst snd].
  assert (Ea : expand a sh = a) by (rewrite <- Sa; now apply expand_self).
  assert (Eb : expand b sh = b) by (rewrite <- Sb; now apply expand_self).
  rewrite Ea, Eb, Sa. reflexivity.
Qed.

(** ** The checks of the distributions *)

Lemma forallb_positive (lo : R) (l : list num) :
  (0 < lo)%R -> Forall (at_least lo) l -> forallb (nltb (Real 0)) l = true.
Proof.
  intros Hlo H. induction H as [|x l Hx _ IH]; [reflexivity|].
  destruct x as [r|]; [|contradiction]. simpl in *. rewrite IH.
  unfold Rltb. destruct (Rlt_dec 0 r); [reflexivity | lra].
Qed.

(** An entry that is NaN or at least a positive bound fails the check of
    positivity only when it is NaN. *)
Lemma forallb_not_positive (lo : R) (l : list num) :
  (0 < lo)%R -> Forall (at_least_or_nan lo) l ->
  forallb (nltb (Real 0)) l = false -> In NaN l.
Proof.
  intros Hlo H. induction H as [|x l Hx _ IH]; [discriminate|].
  destruct x as [r|]; [|left; reflexivity]. simpl in *.
  unfold Rltb. destruct (Rlt_dec 0 r); [|lra]. simpl. auto.
Qed.

Lemma positive_at_least (lo : R) (l : list num) :
  Forall (at_least_or_nan lo) l -> forallb (nltb (Real 0)) l = true ->
  Forall (at_least lo) l.
Proof.
  intros H. induction H as [|x l Hx _ IH]; [constructor|].
  simpl. intros P. apply andb_prop in P. destruct P as [Px Pl].
  constructor; [|now apply IH].
  destruct x as [r|]; [exact Hx | discriminate].
Qed.

Lemma all_positive_true (t : tensor) :
  entries_at_least 1 t -> all_positive t = true.
Proof. apply forallb_positive. lra. Qed.

Lemma or_nan_at_least (lo : R) (l : list num) :
  Forall (at_least_or_nan lo) l -> ~ In NaN l -> Forall (at_least lo) l.
Proof.
  intros H N. induction H as [|x l Hx _ IH]; [constructor|].
  constructor.
  - destruct x as [r|]; [exact Hx|]. exfalso. apply N. left. reflexivity.
  - apply IH. intros Hin. apply N. right. exact Hin.
Qed.

(** What [Beta] returns, it returns for the broadcast arguments, all of them
    positive. *)
Lemma torch_Beta_inv (c1 c0 : tensor) (d : distribution) :
  torch_Beta c1 c0 = Ok d ->
  exists s,
    broadcast_shapes (t_shape c1) (t_shape c0) = Ok s /\
    d = Beta (expand c1 s) (expand c0 s) /\
    all_positive (expand c1 s) = true /\
    all_positive (expand c0 s) = true /\
    t_data (expand c1 s) <> [].
Proof.
  unfold torch_Beta, broadcast2.
  destruct (broadcast_shapes (t_shape c1) (t_shape c0)) as [s|e];
    cbn [result_bind fst snd]; [|discriminate].
  destruct (t_data (expand c1 s)) as [|x l] eqn:E; [discriminate|].
  destruct (all_positive (expand c1 s)) eqn:P1; [|discriminate].
  destruct (all_positive (expand c0 s)) eqn:P0; [|discriminate].
  simpl. intros H; inversion H; subst. exists s.
  repeat (split; [first [reflexivity | assumption]|]).
  simpl in E |- *. rewrite E. discriminate.
Qed.

(** On concentrations that are NaN or at least 1, [Beta] raises [ValueError]
    only when one of them is NaN. *)
Lemma torch_Beta_ValueError (c1 c0 : tensor) :
  entries_at_least_or_nan 1 c1 -> entries_at_least_or_nan 1 c0 ->
  torch_Beta c1 c0 = Raise ValueError ->
  In NaN (t_data c1) \/ In NaN (t_data c0).
Proof.
  intros H1 H0. unfold torch_Beta, broadcast2.
  destruct (broadcast_shapes (t_shape c1) (t_shape c0)) as [s|e] eqn:Eb;
    cbn [result_bind fst snd].
  - destruct (t_data (expand c1 s)) as [|x l] eqn:E; [discriminate|].
    destruct (all_positive (expand c1 s)) eqn:P1.
    + destruct (all_positive (expand c0 s)) eqn:P0; [discriminate|].
      intros _. right. apply (expand_In c0 s).
      apply (forallb_not_positive 1); [lra | | exact P0].
      now apply expand_Forall.
    + intros _. left. apply (expand_In c1 s).
      apply (forallb_not_positive 1); [lra | | exact P1].
      now apply expand_Forall.
  - intros H. inversion H; subst e.
    apply broadcast_shapes_raise in Eb. discriminate.
Qed.

(** On well-formed concentrations of one shape, at least 1 everywhere and
    with an entry at all, [Beta] returns the distribution of these
    concentrations. *)
Lemma torch_Beta_returns (c1 c0 : tensor) :
  tensor_wf c1 -> tensor_wf c0 -> t_shape c1 = t_shape c0 ->
  entries_at_least 1 c1 -> entries_at_least 1 c0 -> t_data c1 <> [] ->
  torch_Beta c1 c0 = Ok (Beta c1 c0).
Proof.
  intros W1 W0 S P1 P0 N. unfold torch_Beta, broadcast2.
  rewrite <- S, broadcast_shapes_same. cbn [result_bind fst snd].
  rewrite (expand_self c1 W1).
  replace (expand c0 (t_shape c1)) with c0
    by (rewrite S; symmetry; now apply expand_self).
  rewrite (all_positive_true c1 P1), (all_positive_true c0 P0).
  destruct (t_data c1); [congruence | reflexivity].
Qed.

(** A forward pass raises nothing but [RuntimeError]. *)
Lemma Sequential_forward_raise (ps : list tensor) (net : Sequential) :
  forall x e, Sequential_forward ps net x = Raise e -> e = RuntimeError.
Proof.
  induction net as [|m net IH]; intros x e H; simpl in H; [discriminate|].
  destruct (module_forward ps m x) as [y|e'] eqn:E; simpl in H.
  - now apply (IH y).
  - inversion H; subst e'. clear H IH.
    destruct m as [l|a]; simpl in E; [|discriminate].
    unfold Linear_forward, parameter in E.
    destruct (nth_error ps (weight l)) as [W|]; simpl in E;
      [|now inversion E].
    destruct (nth_error ps (bias l)) as [b|]; simpl in E; [|now inversion E].
    unfold F_linear in E.
    repeat match type of E with
           | context [match ?t with _ => _ end] =>
               destruct t; try (now inversion E)
           end.
Qed.

(** ** ELU and the concentrations of the Beta policy *)

Lemma elu_at_least (x : R) : (-1 <= elu x)%R.
Proof.
  unfold elu. destruct (Rlt_dec 0 x) as [H|H]; [lra|].
  pose proof (exp_pos x). lra.
Qed.

(** An entry of a network whose last module is an ELU, plus 2, is at least
    1, or NaN. *)
Lemma concentration_at_least_one (ps : list tensor) (net : Sequential)
  (obs y : tensor) :
  output_activation_of net ELU ->
  Sequential_forward ps net obs = Ok y ->
  entries_at_least_or_nan 1 (plus_two y).
Proof.
  intros [front E] H. subst net.
  destruct (forward_output_activation ps ELU front obs y H) as [z Hz].
  subst y. unfold entries_at_least_or_nan, plus_two, tensor_map; simpl.
  rewrite map_map. apply Forall_forall. intros v Hv.
  apply in_map_iff in Hv. destruct Hv as (x & Ex & _). subst v.
  destruct x as [r|]; simpl; [|exact I].
  pose proof (elu_at_least r). lra.
Qed.

Lemma plus_two_nan (t : tensor) :
  In NaN (t_data (plus_two t)) -> In NaN (t_data t).
Proof.
  unfold plus_two, tensor_map; simpl. intros H.
  apply in_map_iff in H. destruct H as (x & Ex & Hx).
  destruct x as [r|]; [discriminate | exact Hx].
Qed.

Lemma plus_two_wf (t : tensor) : tensor_wf t -> tensor_wf (plus_two t).
Proof. apply tensor_map_wf. Qed.

(** The sum of two entries that are NaN or at least 1 is NaN or at least 2,
    and their share of the sum is NaN or between 0 and 1. *)
Lemma sum_at_least_two (x y : num) :
  at_least_or_nan 1 x -> at_least_or_nan 1 y -> at_least_or_nan 2 (nadd x y).
Proof. destruct x, y; simpl; intros; try exact I. lra. Qed.

Lemma ratio_within (x y : R) :
  (1 <= x)%R -> (1 <= y)%R -> (0 <= x / (x + y) <= 1)%R.
Proof.
  intros Hx Hy. unfold Rdiv.
  assert (Hi : (0 < / (x + y))%R) by (apply Rinv_0_lt_compat; lra).
  assert (E : ((x + y) * / (x + y) = 1)%R) by (apply Rinv_r; lra).
  split; nra.
Qed.

Lemma share_within (x y : num) :
  at_least_or_nan 1 x -> at_least_or_nan 1 y ->
  within_or_nan 0 1 (ndiv x (nadd x y)).
Proof.
  destruct x, y; simpl; intros; try exact I. now apply ratio_within.
Qed.

Lemma map2_share_within (u : list num) :
  forall v,
    Forall (at_least_or_nan 1) u -> Forall (at_least_or_nan 1) v ->
    Forall (within_or_nan 0 1) (map2 ndiv u (map2 nadd u v)).
Proof.
  induction u as [|x u IH]; intros v Hu Hv; [constructor|].
  destruct v as [|y v]; [constructor|].
  inversion Hu; inversion Hv; subst. unfold map2; simpl.
  constructor; [now apply share_within | now apply IH].
Qed.

(** ** The test of the observation and MLPBetaActor._distribution *)

Lemma nan_check_run (obs : tensor) (w : world) :
  nan_check obs w = (Ok tt, nan_checked obs w).
Proof.
  unfold nan_check, nan_checked. destruct (count_nan obs =? 0); reflexivity.
Qed.

Lemma nan_checked_params (obs : tensor) (w : world) :
  w_params (nan_checked obs w) = w_params w.
Proof. unfold nan_checked. destruct (count_nan obs =? 0); reflexivity. Qed.

Lemma nan_checked_clean (obs : tensor) (w : world) :
  count_nan obs = 0 -> nan_checked obs w = w.
Proof. intros E. unfold nan_checked. rewrite E. reflexivity. Qed.

(** [MLPBetaActor._distribution] reads the parameters; the world it leaves
    is the one the test of the observation leaves. *)
Lemma MLPBetaActor_distribution_run (self : MLPBetaActor) (obs : tensor)
  (w : world) :
  MLPBetaActor_distribution self obs w =
  (result_bind (Sequential_forward (w_params w) (alpha_net self) obs)
     (fun a0 =>
      result_bind (Sequential_forward (w_params w) (beta_net self) obs)
        (fun b0 => torch_Beta (plus_two a0) (plus_two b0))),
   nan_checked obs w).
Proof.
  unfold MLPBetaActor_distribution.
  rewrite (bind_run_ok _ _ _ _ _ (nan_check_run obs w)).
  unfold bind, reading, lift. rewrite nan_checked_params.
  destruct (Sequential_forward (w_params w) (alpha_net self) obs); simpl;
    [|reflexivity].
  destruct (Sequential_forward (w_params w) (beta_net self) obs); reflexivity.
Qed.

(** What [MLPBetaActor._distribution] returns is a [Beta] whose
    concentrations are the broadcast outputs of the two networks plus 2,
    each of them at least 1. *)
Lemma MLPBetaActor_distribution_inv (self : MLPBetaActor) (obs : tensor)
  (w w' : world) (d : distribution) :
  output_activation_of (alpha_net self) ELU ->
  output_activation_of (beta_net self) ELU ->
  MLPBetaActor_distribution self obs w = (Ok d, w') ->
  exists a0 b0 s,
    Sequential_forward (w_params w) (alpha_net self) obs = Ok a0 /\
    Sequential_forward (w_params w) (beta_net self) obs = Ok b0 /\
    broadcast_shapes (t_shape a0) (t_shape b0) = Ok s /\
    d = Beta (expand (plus_two a0) s) (expand (plus_two b0) s) /\
    entries_at_least 1 (expand (plus_two a0) s) /\
    entries_at_least 1 (expand (plus_two b0) s) /\
    w' = nan_checked obs w.
Proof.
  intros Oa Ob. rewrite MLPBetaActor_distribution_run. intros H.
  injection H as Hd Hw.
  destruct (Sequential_forward (w_params w) (alpha_net self) obs)
    as [a0|e] eqn:Ea; simpl in Hd; [|discriminate].
  destruct (Sequential_forward (w_params w) (beta_net self) obs)
    as [b0|e] eqn:Eb; simpl in Hd; [|discriminate].
  destruct (torch_Beta_inv _ _ _ Hd) as (s & Es & -> & P1 & P0 & _).
  exists a0, b0, s. repeat (split; [first [reflexivity | assumption]|]).
  split; [|split; [|symmetry; exact Hw]].
  - apply positive_at_least; [|exact P1]. apply expand_Forall.
    now apply (concentration_at_least_one (w_params w) (alpha_net self) obs).
  - apply positive_at_least; [|exact P0]. apply expand_Forall.
    now apply (concentration_at_least_one (w_params w) (beta_net self) obs).
Qed.

(** On an observation of [obs_dim] features both networks of a well-formed
    Beta actor return, and so does [_mean], with entries that are NaN or
    between 0 and 1. *)
Lemma MLPBetaActor_mean_run (ps : list tensor) (self : MLPBetaActor)
  (obs_dim act_dim : nat) (obs : tensor) (batch : list nat) :
  MLPBetaActor_wf ps self obs_dim act_dim ->
  tensor_wf obs -> t_shape obs = batch ++ [obs_dim] ->
  exists a0 b0 m,
    Sequential_forward ps (alpha_net self) obs = Ok a0 /\
    Sequential_forward ps (beta_net self) obs = Ok b0 /\
    t_shape a0 = batch ++ [act_dim] /\ t_shape b0 = batch ++ [act_dim] /\
    tensor_wf a0 /\ tensor_wf b0 /\
    MLPBetaActor_mean ps self obs = Ok m /\
    t_shape m = batch ++ [act_dim] /\
    entries_within_or_nan 0 1 m.
Proof.
  intros (Ha & Oa & Hb & Ob) Wobs Hobs.
  destruct (chain_forward ps _ obs_dim act_dim obs batch Ha Hobs Wobs)
    as (a0 & Ea & Sa & Wa).
  destruct (chain_forward ps _ obs_dim act_dim obs batch Hb Hobs Wobs)
    as (b0 & Eb & Sb & Wb).
  set (alpha := plus_two a0).
  set (beta := plus_two b0).
  assert (Pa : entries_at_least_or_nan 1 alpha)
    by now apply (concentration_at_least_one ps (alpha_net self) obs).
  assert (Pb : entries_at_least_or_nan 1 beta)
    by now apply (concentration_at_least_one ps (beta_net self) obs).
  assert (Wal : tensor_wf alpha) by now apply plus_two_wf.
  assert (Wbe : tensor_wf beta) by now apply plus_two_wf.
  set (s := mkTensor (batch ++ [act_dim])
              (map2 nadd (t_data alpha) (t_data beta))).
  assert (Es : tensor_binop nadd alpha beta = Ok s)
    by (apply tensor_binop_aligned; assumption).
  assert (Ws : tensor_wf s).
  { assert (Lal : length (t_data alpha) = numel (batch ++ [act_dim]))
      by (rewrite Wal; unfold alpha; simpl; rewrite Sa; reflexivity).
    assert (Lbe : length (t_data beta) = numel (batch ++ [act_dim]))
      by (rewrite Wbe; unfold beta; simpl; rewrite Sb; reflexivity).
    unfold tensor_wf, s. cbn [t_data t_shape].
    rewrite map2_length, Lal, Lbe. apply Nat.min_id. }
  exists a0, b0,
    (mkTensor (batch ++ [act_dim]) (map2 ndiv (t_data alpha) (t_data s))).
  repeat (split; [assumption|]).
  split; [|split; [reflexivity|]].
  - unfold MLPBetaActor_mean. rewrite Ea, Eb. simpl.
    fold alpha beta. rewrite Es. simpl.
    apply tensor_binop_aligned; try assumption. reflexivity.
  - unfold entries_within_or_nan. simpl. now apply map2_share_within.
Qed.

(** C8, amended. Each concentration [MLPBetaActor._distribution] hands to
    [Beta] is the output of a network that ends in an ELU, plus 2: at least
    1, unless it is NaN.  So [Beta] raises [ValueError] only when an output
    of the networks is NaN, the concentrations of every distribution
    [_distribution] returns are at least 1, and the divisor [alpha + beta]
    of [_mean] is at least 2 or NaN in every entry, hence never 0. *)
Theorem MLPBetaActor_concentrations_spec (ps : list tensor)
  (self : MLPBetaActor) (obs_dim act_dim : nat) (obs : tensor) :
  MLPBetaActor_wf ps self obs_dim act_dim ->
  (forall a0 b0,
     Sequential_forward ps (alpha_net self) obs = Ok a0 ->
     Sequential_forward ps (beta_net self) obs = Ok b0 ->
     entries_at_least_or_nan 1 (plus_two a0) /\
     entries_at_least_or_nan 1 (plus_two b0) /\
     (torch_Beta (plus_two a0) (plus_two b0) = Raise ValueError ->
      In NaN (t_data a0) \/ In NaN (t_data b0)) /\
     (forall s, tensor_binop nadd (plus_two a0) (plus_two b0) = Ok s ->
                entries_at_least_or_nan 2 s /\ ~ In (Real 0) (t_data s))) /\
  (forall w d w',
     w_params w = ps ->
     MLPBetaActor_distribution self obs w = (Ok d, w') ->
     exists c1 c0,
       d = Beta c1 c0 /\ entries_at_least 1 c1 /\ entries_at_least 1 c0) /\
  (forall w w',
     w_params w = ps ->
     MLPBetaActor_distribution self obs w = (Raise ValueError, w') ->
     exists a0 b0,
       Sequential_forward ps (alpha_net self) obs = Ok a0 /\
       Sequential_forward ps (beta_net self) obs = Ok b0 /\
       (In NaN (t_data a0) \/ In NaN (t_data b0))) /\
  (forall m,
     MLPBetaActor_mean ps self obs = Ok m ->
     exists a0 b0 s,
       Sequential_forward ps (alpha_net self) obs = Ok a0 /\
       Sequential_forward ps (beta_net self) obs = Ok b0 /\
       tensor_binop nadd (plus_two a0) (plus_two b0) = Ok s /\
       tensor_binop ndiv (plus_two a0) s = Ok m /\
       entries_at_least_or_nan 2 s /\ ~ In (Real 0) (t_data s)).
Proof.
  intros Hwf. pose proof Hwf as (Ha & Oa & Hb & Ob).
  assert (Hfirst : forall a0 b0,
     Sequential_forward ps (alpha_net self) obs = Ok a0 ->
     Sequential_forward ps (beta_net self) obs = Ok b0 ->
     entries_at_least_or_nan 1 (plus_two a0) /\
     entries_at_least_or_nan 1 (plus_two b0) /\
     (torch_Beta (plus_two a0) (plus_two b0) = Raise ValueError ->
      In NaN (t_data a0) \/ In NaN (t_data b0)) /\
     (forall s, tensor_binop nadd (plus_two a0) (plus_two b0) = Ok s ->
                entries_at_least_or_nan 2 s /\ ~ In (Real 0) (t_data s))).
  { intros a0 b0 Ea Eb.
    assert (Pa : entries_at_least_or_nan 1 (plus_two a0))
      by now apply (concentration_at_least_one ps (alpha_net self) obs).
    assert (Pb : entries_at_least_or_nan 1 (plus_two b0))
      by now apply (concentration_at_least_one ps (beta_net self) obs).
    split; [assumption|]. split; [assumption|]. split.
    - intros HV.
      destruct (torch_Beta_ValueError _ _ Pa Pb HV) as [N|N];
        [left | right]; now apply plus_two_nan.
    - intros s Es.
      assert (Ps : entries_at_least_or_nan 2 s).
      { unfold entries_at_least_or_nan.
        apply (tensor_binop_Forall (at_least_or_nan 1) (at_least_or_nan 1)
                 (at_least_or_nan 2) nadd (plus_two a0) (plus_two b0) s);
          try assumption.
        exact sum_at_least_two. }
      split; [assumption|]. intros Hin.
      unfold entries_at_least_or_nan in Ps. rewrite Forall_forall in Ps.
      specialize (Ps (Real 0) Hin). simpl in Ps. lra. }
  split; [exact Hfirst|]. split; [|split].
  - intros w d w' Hw Hd. subst ps.
    destruct (MLPBetaActor_distribution_inv self obs w w' d Oa Ob Hd)
      as (a0 & b0 & s & _ & _ & _ & -> & P1 & P0 & _).
    eauto.
  - intros w w' Hw Hd. subst ps.
    rewrite MLPBetaActor_distribution_run in Hd. injection Hd as Hd _.
    destruct (Sequential_forward (w_params w) (alpha_net self) obs)
      as [a0|e] eqn:Ea; simpl in Hd.
    2: { inversion Hd; subst e.
         apply Sequential_forward_raise in Ea. discriminate. }
    destruct (Sequential_forward (w_params w) (beta_net self) obs)
      as [b0|e] eqn:Eb; simpl in Hd.
    2: { inversion Hd; subst e.
         apply Sequential_forward_raise in Eb. discriminate. }
    exists a0, b0. split; [reflexivity|]. split; [reflexivity|].
    destruct (Hfirst a0 b0 eq_refl eq_refl) as (_ & _ & HV & _).
    now apply HV.
  - intros m Hm. unfold MLPBetaActor_mean in Hm.
    destruct (Sequential_forward ps (alpha_net self) obs)
      as [a0|e] eqn:Ea; simpl in Hm; [|discriminate].
    destruct (Sequential_forward ps (beta_net self) obs)
      as [b0|e] eqn:Eb; simpl in Hm; [|discriminate].
    destruct (tensor_binop nadd (plus_two a0) (plus_two b0))
      as [s|e] eqn:Es; simpl in Hm; [|discriminate].
    exists a0, b0, s. repeat (split; [first [reflexivity | assumption]|]).
    destruct (Hfirst a0 b0 eq_refl eq_refl) as (_ & _ & _ & Hs).
    now apply Hs.
Qed.

(** ** Calls that keep the parameter store *)

Lemma keeps_ret {A} (a : A) : keeps_params (ret a).
Proof. intros w. reflexivity. Qed.

Lemma keeps_raise {A} (e : exn) : keeps_params (@raise A e).
Proof. intros w. reflexivity. Qed.

Lemma keeps_lift {A} (r : result A) : keeps_params (lift r).
Proof. intros w. reflexivity. Qed.

Lemma keeps_reading {A} (f : list tensor -> result A) :
  keeps_params (reading f).
Proof. intros w. reflexivity. Qed.

Lemma keeps_with_rng {A} (f : RNG -> A * RNG) : keeps_params (with_rng f).
Proof. intros w. unfold with_rng. destruct (f (w_rng w)). reflexivity. Qed.

Lemma keeps_print (m : message) : keeps_params (print m).
Proof. intros w. reflexivity. Qed.

Lemma keeps_bind {A B} (m : M A) (k : A -> M B) :
  keeps_params m -> (forall a, keeps_params (k a)) -> keeps_params (bind m k).
Proof.
  intros Hm Hk w. unfold bind. specialize (Hm w).
  destruct (m w) as [[a|e] w1]; simpl in *; [|assumption].
  rewrite Hk. assumption.
Qed.

Lemma keeps_no_grad {A} (body : M A) :
  keeps_params body -> keeps_params (no_grad body).
Proof.
  intros H w. unfold no_grad. specialize (H (set_grad false w)).
  destruct (body (set_grad false w)) as [r w']. simpl in *. assumption.
Qed.

Create HintDb keeps.
#[local] Hint Resolve keeps_ret keeps_raise keeps_lift keeps_reading
  keeps_with_rng keeps_print keeps_no_grad : keeps.
#[local] Hint Extern 2 (keeps_params (bind _ _)) =>
  apply keeps_bind; [|intro] : keeps.

Lemma keeps_nan_check (obs : tensor) : keeps_params (nan_check obs).
Proof. unfold nan_check. destruct (negb _); auto with keeps. Qed.

Lemma keeps_torch_normal (mean : tensor) (std : R) :
  keeps_params (torch_normal mean std).
Proof. unfold torch_normal. auto with keeps. Qed.

Lemma keeps_dist_sample (d : distribution) : keeps_params (dist_sample d).
Proof. destruct d; unfold dist_sample; auto with keeps. Qed.

Lemma keeps_MLPBetaActor_distribution (self : MLPBetaActor) (obs : tensor) :
  keeps_params (MLPBetaActor_distribution self obs).
Proof.
  unfold MLPBetaActor_distribution.
  pose proof (keeps_nan_check obs). auto 8 with keeps.
Qed.

Lemma keeps_MLPBetaActor_log_prob (self : MLPBetaActor) (pi : distribution)
  (a : tensor) :
  keeps_params (MLPBetaActor_log_prob_from_distribution self pi a).
Proof. unfold MLPBetaActor_log_prob_from_distribution. auto with keeps. Qed.

#[local] Hint Resolve keeps_nan_check keeps_torch_normal keeps_dist_sample
  keeps_MLPBetaActor_distribution keeps_MLPBetaActor_log_prob : keeps.

Lemma keeps_step (self : MLPActorCritic) (obs : tensor) (eval : bool)
  (std_mu : R) :
  keeps_params (step self obs eval std_mu).
Proof.
  unfold step. apply keeps_no_grad. destruct eval.
  - auto with keeps.
  - repeat (apply keeps_bind; [auto with keeps | intro]).
    + destruct (Rlt_dec 0 std_mu); auto with keeps.
    + apply keeps_ret.
Qed.

(** C10. [MLPActorCritic.step] and [MLPActorCritic.act] leave the parameter
    store, hence every weight and bias of the actor and of the critic, as
    they found it: for every observation, every [eval] and every [std_mu],
    whether they return or raise. *)
Theorem step_act_keep_parameters (self : MLPActorCritic) (obs : tensor)
  (eval : bool) (std_mu : R) (w : world) :
  w_params (snd (step self obs eval std_mu w)) = w_params w /\
  w_params (snd (act self obs w)) = w_params w.
Proof.
  split; [apply keeps_step|].
  unfold act. apply keeps_bind; [apply keeps_step | intro; auto with keeps].
Qed.

(** ** Actor.forward *)

(** C4. [Actor.forward(obs, act)] returns the pair of the distribution
    [_distribution] gives for [obs] and of a log-probability that is [None]
    exactly when [act] is [None], and is otherwise what
    [_log_prob_from_distribution] gives for that distribution and [act]; and
    it does return as soon as the methods it calls return. *)
Theorem Actor_forward_spec {A} `{Actor A} (self : A) (obs : tensor)
  (act : option tensor) (w : world) :
  (forall r w',
     Actor_forward self obs act w = (Ok r, w') ->
     exists w1,
       _distribution self obs w = (Ok (fst r), w1) /\
       (snd r = None <-> act = None) /\
       (forall a, act = Some a ->
          exists l,
            _log_prob_from_distribution self (fst r) a w1 = (Ok l, w') /\
            snd r = Some l)) /\
  (forall pi w1,
     _distribution self obs w = (Ok pi, w1) ->
     (act = None -> Actor_forward self obs act w = (Ok (pi, None), w1)) /\
     (forall a l w2,
        act = Some a ->
        _log_prob_from_distribution self pi a w1 = (Ok l, w2) ->
        Actor_forward self obs act w = (Ok (pi, Some l), w2))).
Proof.
  split.
  - intros r w' Hrun. unfold Actor_forward in Hrun.
    apply bind_inv in Hrun.
    destruct Hrun as [(pi & w1 & Hd & Hk) | (e & _ & E)]; [|discriminate].
    exists w1. destruct act as [a|].
    + apply bind_inv in Hk.
      destruct Hk as [(lo & w2 & Hl & Hret) | (e & _ & E)]; [|discriminate].
      apply bind_inv in Hl.
      destruct Hl as [(l & w3 & Hlp & Hret') | (e & _ & E)]; [|discriminate].
      inversion Hret'; subst. inversion Hret; subst. simpl.
      split; [assumption|]. split; [split; discriminate|].
      intros a' Ea. inversion Ea; subst. eauto.
    + inversion Hk; subst. simpl.
      split; [assumption|]. split; [tauto|]. discriminate.
  - intros pi w1 Hd. split.
    + intros ->. unfold Actor_forward.
      rewrite (bind_run_ok _ _ _ _ _ Hd). reflexivity.
    + intros a l w2 -> Hl. unfold Actor_forward.
      rewrite (bind_run_ok _ _ _ _ _ Hd).
      rewrite (bind_run_ok _ _ w1 w2 (Some l)); [reflexivity|].
      rewrite (bind_run_ok _ _ _ _ _ Hl). reflexivity.
Qed.

(** The class [Actor] itself never returns from [forward]. *)
Lemma AbstractActor_forward_raises (obs : tensor) (act : option tensor)
  (w : world) :
  Actor_forward abstract_actor obs act w = (Raise NotImplementedError, w).
Proof. reflexivity. Qed.

(** ** MLPActorCritic.step *)

Lemma clamp_entry_within_or_nan (lo hi : R) (x : num) :
  (lo <= hi)%R -> within_or_nan lo hi (clamp_entry lo hi x).
Proof.
  intros H. destruct x as [r|]; simpl; [|exact I].
  unfold Rmin, Rmax.
  destruct (Rle_dec r lo); destruct (Rle_dec _ hi); lra.
Qed.

Lemma clamp_within_or_nan (t : tensor) (lo hi : R) :
  (lo <= hi)%R -> entries_within_or_nan lo hi (clamp t lo hi).
Proof.
  intros H. unfold entries_within_or_nan, clamp, tensor_map; simpl.
  apply Forall_forall. intros v Hv.
  apply in_map_iff in Hv. destruct Hv as (x & <- & _).
  now apply clamp_entry_within_or_nan.
Qed.

Lemma clamp_entry_id (lo hi : R) (x : num) :
  within_or_nan lo hi x -> clamp_entry lo hi x = x.
Proof.
  destruct x as [r|]; simpl; [|reflexivity]. intros H. f_equal.
  unfold Rmin, Rmax.
  destruct (Rle_dec r lo); destruct (Rle_dec _ hi); lra.
Qed.

(** [clamp] leaves a tensor alone whose entries are within the bounds or
    NaN. *)
Lemma clamp_id (t : tensor) (lo hi : R) :
  entries_within_or_nan lo hi t -> clamp t lo hi = t.
Proof.
  intros H. unfold clamp, tensor_map. destruct t as [sh data]; simpl in *.
  f_equal. unfold entries_within_or_nan in H; simpl in H.
  induction H as [|x l Hx _ IH]; simpl; [reflexivity|].
  rewrite IH, clamp_entry_id by exact Hx. reflexivity.
Qed.

Lemma within_weaken (lo hi lo' hi' : R) (l : list num) :
  (lo' <= lo)%R -> (hi <= hi')%R ->
  Forall (within lo hi) l -> Forall (within lo' hi') l.
Proof.
  intros Hlo Hhi H. eapply Forall_impl; [|exact H].
  intros [r|]; simpl; [lra | exact (fun f => f)].
Qed.

Lemma within_or_nan_weaken (lo hi lo' hi' : R) (l : list num) :
  (lo' <= lo)%R -> (hi <= hi')%R ->
  Forall (within_or_nan lo hi) l -> Forall (within_or_nan lo' hi') l.
Proof.
  intros Hlo Hhi H. eapply Forall_impl; [|exact H].
  intros [r|]; simpl; [lra | exact (fun f => f)].
Qed.

Lemma within_is_within_or_nan (lo hi : R) (l : list num) :
  Forall (within lo hi) l -> Forall (within_or_nan lo hi) l.
Proof.
  intros H. eapply Forall_impl; [|exact H].
  intros [r|]; simpl; [exact (fun f => f) | exact (fun _ => I)].
Qed.

Lemma world_eta (w : world) :
  mkWorld (w_params w) (w_rng w) (w_stdout w) (w_grad w) = w.
Proof. destruct w; reflexivity. Qed.

(** With [eval] set, [step] is the clamped mean of the policy. *)
Lemma step_eval_run (self : MLPActorCritic) (obs : tensor) (std_mu : R)
  (w : world) :
  step self obs true std_mu w =
  (result_bind (MLPBetaActor_mean (w_params w) (ac_pi self) obs)
     (fun a => Ok (Eval_action (clamp a (-1) 1))), w).
Proof.
  unfold step, no_grad, bind, reading, ret, set_grad. simpl.
  destruct (MLPBetaActor_mean (w_params w) (ac_pi self) obs); simpl;
    rewrite world_eta; reflexivity.
Qed.

Lemma draw_each_length {A} (f : A -> RNG -> num * RNG) (l : list A) :
  forall g, length (fst (draw_each f l g)) = length l.
Proof.
  induction l as [|a l IH]; intros g; simpl; [reflexivity|].
  destruct (f a g) as [x g1]. specialize (IH g1).
  destruct (draw_each f l g1). simpl in *. lia.
Qed.

Lemma draw_each_Forall {A} (P : A -> Prop) (Q : num -> Prop)
  (f : A -> RNG -> num * RNG) :
  (forall a g, P a -> Q (fst (f a g))) ->
  forall l g, Forall P l -> Forall Q (fst (draw_each f l g)).
Proof.
  intros Hf l. induction l as [|a l IH]; intros g H; simpl; [constructor|].
  inversion H; subst.
  pose proof (Hf a g ltac:(assumption)) as Hq.
  destruct (f a g) as [x g1]. specialize (IH g1 ltac:(assumption)).
  destruct (draw_each f l g1). simpl in *. constructor; assumption.
Qed.

(** Draws from a distribution whose parameters are real numbers stay where
    the sampler of the library stays. *)
Lemma draw_with_within (f : R -> R -> RNG -> R * RNG) (lo hi : R) :
  (forall a b g, (lo <= fst (f a b g) <= hi)%R) ->
  forall u v g,
    ~ In NaN u -> ~ In NaN v ->
    Forall (within lo hi) (fst (draw_each (draw_with f) (combine u v) g)).
Proof.
  intros Hf u v g Nu Nv.
  apply (draw_each_Forall
           (fun p : num * num => fst p <> NaN /\ snd p <> NaN)).
  - intros [[a|] [b|]] g0 [Ha Hb]; simpl in *; try congruence.
    unfold real_draw. specialize (Hf a b g0).
    destruct (f a b g0) as [x g1]. exact Hf.
  - apply Forall_forall. intros [x y] Hin. simpl.
    split; intros ->.
    + apply Nu. now apply in_combine_l in Hin.
    + apply Nv. now apply in_combine_r in Hin.
Qed.

Lemma torch_normal_run (mean : tensor) (std : R) (w : world) :
  exists noisy w',
    torch_normal mean std w = (Ok noisy, w') /\
    t_shape noisy = t_shape mean /\
    length (t_data noisy) = length (t_data mean) /\
    w_params w' = w_params w.
Proof.
  unfold torch_normal, bind, with_rng, ret.
  pose proof (draw_each_length (normal_entry std) (t_data mean) (w_rng w))
    as L.
  destruct (draw_each _ (t_data mean) (w_rng w)) as [xs g]. simpl in *.
  eexists. eexists. split; [reflexivity|]. simpl. auto.
Qed.

Lemma dist_sample_Beta_run (c1 c0 : tensor) (w : world) :
  dist_sample (Beta c1 c0) w =
  (Ok (mkTensor (t_shape c1)
         (fst (draw_each (draw_with rand_beta)
                 (combine (t_data c1) (t_data c0)) (w_rng w)))),
   mkWorld (w_params w)
     (snd (draw_each (draw_with rand_beta)
             (combine (t_data c1) (t_data c0)) (w_rng w)))
     (w_stdout w) (w_grad w)).
Proof.
  unfold dist_sample, bind, with_rng, ret.
  destruct (draw_each _ (combine (t_data c1) (t_data c0)) (w_rng w))
    as [xs g].
  reflexivity.
Qed.

(** [log_prob] returns only for a value in the support. *)
Lemma log_prob_entries_inv (f : R -> R -> R -> R) (support : num -> bool)
  (p1 p2 value lp : tensor) :
  log_prob_entries f support p1 p2 value = Ok lp ->
  forallb support (t_data value) = true /\
  broadcast_shapes (t_shape p1) (t_shape value) = Ok (t_shape lp).
Proof.
  unfold log_prob_entries.
  destruct (broadcast_shapes (t_shape p1) (t_shape value)) as [s|e];
    [|discriminate].
  destruct (forallb support (t_data value)); [|discriminate].
  intros H; inversion H; subst. auto.
Qed.

Lemma log_prob_entries_returns (f : R -> R -> R -> R)
  (support : num -> bool) (p1 p2 value : tensor) :
  t_shape value = t_shape p1 ->
  forallb support (t_data value) = true ->
  exists lp,
    log_prob_entries f support p1 p2 value = Ok lp /\
    t_shape lp = t_shape p1.
Proof.
  intros E S. unfold log_prob_entries.
  rewrite E, broadcast_shapes_same, S. eauto.
Qed.

Lemma beta_support_within (l : list num) :
  forallb beta_support l = true <-> Forall (within 0 1) l.
Proof.
  induction l as [|x l IH]; simpl.
  - split; [constructor | reflexivity].
  - rewrite andb_true_iff, IH. split.
    + intros [Hx Hl]. constructor; [|exact Hl].
      destruct x as [r|]; [|discriminate]. unfold beta_support in Hx.
      simpl in Hx. unfold Rleb in Hx.
      destruct (Rle_dec 0 r); [|discriminate].
      destruct (Rle_dec r 1); [|discriminate]. simpl. lra.
    + intros H. inversion H as [|y l' Hx Hl]; subst. split; [|exact Hl].
      destruct x as [r|]; [|contradiction]. simpl in Hx.
      unfold beta_support. simpl. unfold Rleb.
      destruct (Rle_dec 0 r); [|lra].
      destruct (Rle_dec r 1); [reflexivity | lra].
Qed.

Lemma reading_run {A} (f : list tensor -> result A) (w : world) (x : A) :
  f (w_params w) = Ok x -> reading f w = (Ok x, w).
Proof. intros E. unfold reading. rewrite E. reflexivity. Qed.

Lemma MLPBetaActor_log_prob_run (self : MLPBetaActor) (pi : distribution)
  (a lp : tensor) (w : world) :
  dist_log_prob pi a = Ok lp ->
  MLPBetaActor_log_prob_from_distribution self pi a w = (Ok (sum_last lp), w).
Proof.
  intros E. unfold MLPBetaActor_log_prob_from_distribution, bind, lift, ret.
  rewrite E. reflexivity.
Qed.

(** The calls behind a return of [step] without [eval], one after the
    other. *)
Lemma step_rollout_inv (self : MLPActorCritic) (obs : tensor) (std_mu : R)
  (w w' : world) (r : step_output) :
  step self obs false std_mu w = (Ok r, w') ->
  exists pi a_raw w1 lp v mu mu_bar w2,
    MLPBetaActor_distribution (ac_pi self) obs (set_grad false w)
      = (Ok pi, nan_checked obs (set_grad false w)) /\
    dist_sample pi (nan_checked obs (set_grad false w)) = (Ok a_raw, w1) /\
    w_params w1 = w_params w /\
    dist_log_prob pi (clamp a_raw (-1) 1) = Ok lp /\
    MLPBetaActor_mean (w_params w) (ac_pi self) obs = Ok mu /\
    MLPCritic_forward (w_params w) (ac_v self) obs = Ok v /\
    (if Rlt_dec 0 std_mu
     then bind (torch_normal obs std_mu)
            (fun noisy =>
               reading (fun ps => MLPBetaActor_mean ps (ac_pi self) noisy))
     else ret mu) w1 = (Ok mu_bar, w2) /\
    r = Rollout (clamp a_raw (-1) 1) v (sum_last lp) mu mu_bar /\
    w' = set_grad (w_grad w) w2.
Proof.
  clear rand_uniform.
  unfold step, no_grad.
  destruct (bind _ _ (set_grad false w)) as [r0 w0] eqn:Hb.
  intros E; inversion E; subst; clear E.
  apply bind_inv in Hb.
  destruct Hb as [(pi & wa & Hd & Hb) | (e & _ & ?)]; [|discriminate].
  assert (Ewa : wa = nan_checked obs (set_grad false w)).
  { rewrite MLPBetaActor_distribution_run in Hd. now inversion Hd. }
  subst wa.
  apply bind_inv in Hb.
  destruct Hb as [(a_raw & w1 & Hs & Hb) | (e & _ & ?)]; [|discriminate].
  assert (Hp1 : w_params w1 = w_params w).
  { pose proof (keeps_dist_sample pi (nan_checked obs (set_grad false w)))
      as K.
    rewrite Hs in K. simpl in K. rewrite K, nan_checked_params.
    reflexivity. }
  apply bind_inv in Hb.
  destruct Hb as [(logp & wb & Hl & Hb) | (e & _ & ?)]; [|discriminate].
  unfold MLPBetaActor_log_prob_from_distribution, bind, lift, ret in Hl.
  destruct (dist_log_prob pi (clamp a_raw (-1) 1)) as [lp|e] eqn:Hlp;
    [|discriminate].
  inversion Hl; subst logp wb; clear Hl.
  apply bind_inv in Hb.
  destruct Hb as [(mu & wc & Hm & Hb) | (e & _ & ?)]; [|discriminate].
  unfold reading in Hm. rewrite Hp1 in Hm.
  destruct (MLPBetaActor_mean (w_params w) (ac_pi self) obs) as [mu'|e]
    eqn:Hmu; [|discriminate].
  inversion Hm; subst mu' wc; clear Hm.
  apply bind_inv in Hb.
  destruct Hb as [(v & wd & Hv & Hb) | (e & _ & ?)]; [|discriminate].
  unfold reading in Hv. rewrite Hp1 in Hv.
  destruct (MLPCritic_forward (w_params w) (ac_v self) obs) as [v'|e]
    eqn:Hcv; [|discriminate].
  inversion Hv; subst v' wd; clear Hv.
  apply bind_inv in Hb.
  destruct Hb as [(mu_bar & w2 & Hmb & Hb) | (e & _ & ?)]; [|discriminate].
  inversion Hb; subst.
  do 8 eexists.
  repeat (split; [first [eassumption | reflexivity]|]). reflexivity.
Qed.

(** A value [log_prob] of the policy accepts lies in the unit interval. *)
Lemma MLPBetaActor_log_prob_support (self : MLPBetaActor) (obs : tensor)
  (w w1 : world) (pi : distribution) (a lp : tensor) :
  MLPBetaActor_distribution self obs w = (Ok pi, w1) ->
  dist_log_prob pi a = Ok lp ->
  Forall (within 0 1) (t_data a).
Proof.
  rewrite MLPBetaActor_distribution_run. intros Hd Hlp.
  injection Hd as Hd _.
  destruct (Sequential_forward (w_params w) (alpha_net self) obs)
    as [a0|e]; simpl in Hd; [|discriminate].
  destruct (Sequential_forward (w_params w) (beta_net self) obs)
    as [b0|e]; simpl in Hd; [|discriminate].
  destruct (torch_Beta_inv _ _ _ Hd) as (s & _ & -> & _).
  simpl in Hlp. apply log_prob_entries_inv in Hlp.
  now apply beta_support_within.
Qed.

(** Without [eval], [step] returns as soon as the calls it makes return. *)
Lemma step_rollout_run (self : MLPActorCritic) (obs : tensor) (std_mu : R)
  (w w1 : world) (pi : distribution) (a_raw lp v mu : tensor) :
  MLPBetaActor_distribution (ac_pi self) obs (set_grad false w)
    = (Ok pi, nan_checked obs (set_grad false w)) ->
  dist_sample pi (nan_checked obs (set_grad false w)) = (Ok a_raw, w1) ->
  dist_log_prob pi (clamp a_raw (-1) 1) = Ok lp ->
  MLPBetaActor_mean (w_params w) (ac_pi self) obs = Ok mu ->
  MLPCritic_forward (w_params w) (ac_v self) obs = Ok v ->
  (~ (0 < std_mu)%R ->
   step self obs false std_mu w =
     (Ok (Rollout (clamp a_raw (-1) 1) v (sum_last lp) mu mu),
      set_grad (w_grad w) w1)) /\
  (forall noisy w2 mu_bar,
     (0 < std_mu)%R ->
     torch_normal obs std_mu w1 = (Ok noisy, w2) ->
     MLPBetaActor_mean (w_params w) (ac_pi self) noisy = Ok mu_bar ->
     step self obs false std_mu w =
       (Ok (Rollout (clamp a_raw (-1) 1) v (sum_last lp) mu mu_bar),
        set_grad (w_grad w) w2)).
Proof.
  clear rand_uniform.
  intros Hd Hs Hlp Hmu Hv.
  assert (Hp1 : w_params w1 = w_params w).
  { pose proof (keeps_dist_sample pi (nan_checked obs (set_grad false w)))
      as K.
    rewrite Hs in K. simpl in K. rewrite K, nan_checked_params.
    reflexivity. }
  assert (Hrun : forall mu_bar w2,
             (if Rlt_dec 0 std_mu
              then bind (torch_normal obs std_mu)
                     (fun noisy =>
                        reading (fun ps =>
                                   MLPBetaActor_mean ps (ac_pi self) noisy))
              else ret mu) w1 = (Ok mu_bar, w2) ->
             step self obs false std_mu w =
               (Ok (Rollout (clamp a_raw (-1) 1) v (sum_last lp) mu mu_bar),
                set_grad (w_grad w) w2)).
  { intros mu_bar w2 Hmb. unfold step, no_grad.
    rewrite (bind_run_ok _ _ _ _ _ Hd), (bind_run_ok _ _ _ _ _ Hs).
    rewrite (bind_run_ok _ _ _ _ _
               (MLPBetaActor_log_prob_run (ac_pi self) pi
                  (clamp a_raw (-1) 1) lp w1 Hlp)).
    rewrite (bind_run_ok _ _ w1 w1 mu)
      by (apply reading_run; rewrite Hp1; exact Hmu).
    rewrite (bind_run_ok _ _ w1 w1 v)
      by (apply reading_run; rewrite Hp1; exact Hv).
    rewrite (bind_run_ok _ _ _ _ _ Hmb). reflexivity. }
  split.
  - intros Hneg. apply Hrun.
    destruct (Rlt_dec 0 std_mu) as [Hpos|_]; [contradiction | reflexivity].
  - intros noisy w2 mu_bar Hpos Hn Hmb. apply Hrun.
    destruct (Rlt_dec 0 std_mu) as [_|Hneg]; [|contradiction].
    rewrite (bind_run_ok _ _ _ _ _ Hn). apply reading_run.
    pose proof (keeps_torch_normal obs std_mu w1) as K.
    rewrite Hn in K. simpl in K. rewrite K, Hp1. exact Hmb.
Qed.

(** C2, amended. Whenever [step] returns without [eval], it has built the
    distribution [pi] of the policy for [obs] (printing [obs] first when it
    holds a NaN), drawn [a_raw] from it and clamped it to [-1, 1]; of the
    five values it returns the first is the clamped draw [a], every entry of
    which lies in [-1, 1], the second the value [v] of the critic for [obs],
    and the third the log-probability of [a] under [pi], summed over the
    last axis.  And it does return as soon as the calls it makes return. *)
Theorem step_rollout_spec (self : MLPActorCritic) (obs : tensor)
  (std_mu : R) (w : world) :
  (forall r w',
     step self obs false std_mu w = (Ok r, w') ->
     exists pi a_raw w1 lp a v logp_a mu mu_bar,
       MLPBetaActor_distribution (ac_pi self) obs (set_grad false w)
         = (Ok pi, nan_checked obs (set_grad false w)) /\
       dist_sample pi (nan_checked obs (set_grad false w))
         = (Ok a_raw, w1) /\
       a = clamp a_raw (-1) 1 /\
       entries_within (-1) 1 a /\
       MLPCritic_forward (w_params w) (ac_v self) obs = Ok v /\
       dist_log_prob pi a = Ok lp /\
       logp_a = sum_last lp /\
       r = Rollout a v logp_a mu mu_bar) /\
  (forall pi a_raw w1 lp v mu,
     MLPBetaActor_distribution (ac_pi self) obs (set_grad false w)
       = (Ok pi, nan_checked obs (set_grad false w)) ->
     dist_sample pi (nan_checked obs (set_grad false w)) = (Ok a_raw, w1) ->
     dist_log_prob pi (clamp a_raw (-1) 1) = Ok lp ->
     MLPBetaActor_mean (w_params w) (ac_pi self) obs = Ok mu ->
     MLPCritic_forward (w_params w) (ac_v self) obs = Ok v ->
     (~ (0 < std_mu)%R ->
      step self obs false std_mu w =
        (Ok (Rollout (clamp a_raw (-1) 1) v (sum_last lp) mu mu),
         set_grad (w_grad w) w1)) /\
     (forall noisy w2 mu_bar,
        (0 < std_mu)%R ->
        torch_normal obs std_mu w1 = (Ok noisy, w2) ->
        MLPBetaActor_mean (w_params w) (ac_pi self) noisy = Ok mu_bar ->
        step self obs false std_mu w =
          (Ok (Rollout (clamp a_raw (-1) 1) v (sum_last lp) mu mu_bar),
           set_grad (w_grad w) w2))).
Proof.
  split.
  - intros r w' Hstep.
    destruct (step_rollout_inv self obs std_mu w w' r Hstep)
      as (pi & a_raw & w1 & lp & v & mu & mu_bar & w2
          & Hd & Hs & _ & Hlp & _ & Hv & _ & Hr & _).
    exists pi, a_raw, w1, lp, (clamp a_raw (-1) 1), v, (sum_last lp), mu,
      mu_bar.
    repeat (split; [first [assumption | reflexivity]|]).
    split; [|repeat (split; [first [assumption | reflexivity]|]); exact Hr].
    unfold entries_within.
    apply (within_weaken 0 1); [lra | lra |].
    exact (MLPBetaActor_log_prob_support _ _ _ _ _ _ _ Hd Hlp).
  - intros pi a_raw w1 lp v mu. apply step_rollout_run.
Qed.

Lemma step_rollout_action_within (self : MLPActorCritic) (obs : tensor)
  (std_mu : R) (w w' : world) (r : step_output) :
  step self obs false std_mu w = (Ok r, w') ->
  exists a v lp mu mb,
    r = Rollout a v lp mu mb /\ entries_within (-1) 1 a.
Proof.
  intros Hstep.
  destruct (step_rollout_inv self obs std_mu w w' r Hstep)
    as (pi & a_raw & w1 & lp & v & mu & mu_bar & w2
        & Hd & _ & _ & Hlp & _ & _ & _ & Hr & _).
  exists (clamp a_raw (-1) 1), v, (sum_last lp), mu, mu_bar.
  split; [exact Hr|]. unfold entries_within.
  apply (within_weaken 0 1); [lra | lra |].
  exact (MLPBetaActor_log_prob_support _ _ _ _ _ _ _ Hd Hlp).
Qed.

(** C9, amended. Every entry of the action [step] returns without [eval]
    (the clamped draw), and so of what [act] returns, lies in [-1, 1].  With
    [eval] the action is the clamped mean of the policy, and every entry of
    it lies in [-1, 1] or is NaN: [clamp] hands a NaN on. *)
Theorem step_act_action_within (self : MLPActorCritic) (obs : tensor)
  (std_mu : R) (w : world) :
  (forall r w',
     step self obs true std_mu w = (Ok r, w') ->
     exists m,
       MLPBetaActor_mean (w_params w) (ac_pi self) obs = Ok m /\
       action_of r = clamp m (-1) 1 /\
       entries_within_or_nan (-1) 1 (action_of r)) /\
  (forall r w',
     step self obs false std_mu w = (Ok r, w') ->
     entries_within (-1) 1 (action_of r)) /\
  (forall a w',
     act self obs w = (Ok a, w') -> entries_within (-1) 1 a).
Proof.
  split; [|split].
  - intros r w'. rewrite step_eval_run.
    destruct (MLPBetaActor_mean (w_params w) (ac_pi self) obs) as [m|e];
      simpl; intros E; inversion E; subst; simpl.
    exists m. split; [reflexivity|]. split; [reflexivity|].
    apply clamp_within_or_nan; lra.
  - intros r w' Hstep.
    destruct (step_rollout_action_within _ _ _ _ _ _ Hstep)
      as (a & v & lp & mu & mb & -> & Hin).
    exact Hin.
  - intros a w' H. unfold act in H. apply bind_inv in H.
    destruct H as [(r & w1 & Hstep & Hitem) | (e & _ & E)]; [|discriminate].
    destruct (step_rollout_action_within _ _ _ _ _ _ Hstep)
      as (a1 & v & lp & mu & mb & -> & Hin).
    inversion Hitem; subst. exact Hin.
Qed.

(** On an observation of [obs_dim] features for which the outputs of the
    two networks hold no NaN and at least one entry,
    [MLPBetaActor._distribution] returns the [Beta] distribution of these
    outputs plus 2. *)
Lemma MLPBetaActor_distribution_returns (self : MLPBetaActor)
  (obs_dim act_dim : nat) (batch : list nat) (obs : tensor) (w : world) :
  MLPBetaActor_wf (w_params w) self obs_dim act_dim ->
  tensor_wf obs -> t_shape obs = batch ++ [obs_dim] ->
  (forall a0,
     Sequential_forward (w_params w) (alpha_net self) obs = Ok a0 ->
     ~ In NaN (t_data a0) /\ t_data a0 <> []) ->
  (forall b0,
     Sequential_forward (w_params w) (beta_net self) obs = Ok b0 ->
     ~ In NaN (t_data b0)) ->
  exists alpha beta,
    ~ In NaN (t_data alpha) /\ ~ In NaN (t_data beta) /\
    MLPBetaActor_distribution self obs w
      = (Ok (Beta alpha beta), nan_checked obs w).
Proof.
  intros Hpi Wobs Hobs Hna Hnb.
  destruct (MLPBetaActor_mean_run (w_params w) self obs_dim act_dim
              obs batch Hpi Wobs Hobs)
    as (a0 & b0 & mu & Ea & Eb & Sa & Sb & Wa & Wb & _).
  destruct (Hna a0 Ea) as [Na Nea]. pose proof (Hnb b0 Eb) as Nb.
  destruct Hpi as (_ & Oa & _ & Ob).
  set (alpha := plus_two a0). set (beta := plus_two b0).
  assert (Nal : ~ In NaN (t_data alpha))
    by (intros H; apply Na; now apply plus_two_nan).
  assert (Nbe : ~ In NaN (t_data beta))
    by (intros H; apply Nb; now apply plus_two_nan).
  assert (Pa : entries_at_least 1 alpha).
  { apply or_nan_at_least; [|exact Nal].
    now apply (concentration_at_least_one (w_params w) (alpha_net self)
                 obs). }
  assert (Pb : entries_at_least 1 beta).
  { apply or_nan_at_least; [|exact Nbe].
    now apply (concentration_at_least_one (w_params w) (beta_net self)
                 obs). }
  assert (Hbeta : torch_Beta alpha beta = Ok (Beta alpha beta)).
  { apply torch_Beta_returns; try assumption.
    - now apply plus_two_wf.
    - now apply plus_two_wf.
    - simpl. congruence.
    - unfold alpha, plus_two, tensor_map; simpl.
      destruct (t_data a0); [congruence | discriminate]. }
  exists alpha, beta. split; [exact Nal|]. split; [exact Nbe|].
  rewrite MLPBetaActor_distribution_run, Ea, Eb. simpl.
  fold alpha beta. rewrite Hbeta. reflexivity.
Qed.

(** If moreover the sampler of the Beta distribution stays in the unit
    interval, [step] returns without [eval]. *)
Lemma step_rollout_returns (self : MLPActorCritic) (obs_dim act_dim : nat)
  (batch : list nat) (obs : tensor) (std_mu : R) (w : world) :
  MLPActorCritic_wf (w_params w) self obs_dim act_dim ->
  tensor_wf obs -> t_shape obs = batch ++ [obs_dim] ->
  (forall a0,
     Sequential_forward (w_params w) (alpha_net (ac_pi self)) obs = Ok a0 ->
     ~ In NaN (t_data a0) /\ t_data a0 <> []) ->
  (forall b0,
     Sequential_forward (w_params w) (beta_net (ac_pi self)) obs = Ok b0 ->
     ~ In NaN (t_data b0)) ->
  (forall a b g, (0 <= fst (rand_beta a b g) <= 1)%R) ->
  exists a v logp_a mu mu_bar w',
    step self obs false std_mu w = (Ok (Rollout a v logp_a mu mu_bar), w').
Proof.
  clear rand_uniform.
  intros (Hpi & Hv) Wobs Hobs Hna Hnb Hsam.
  destruct (MLPBetaActor_mean_run (w_params w) (ac_pi self) obs_dim act_dim
              obs batch Hpi Wobs Hobs)
    as (_ & _ & mu & _ & _ & _ & _ & _ & _ & Hmu & _ & _).
  destruct (MLPCritic_forward_batch (w_params w) (ac_v self) obs_dim obs batch
              Hv Wobs Hobs) as (y & _ & _ & Hcv & _).
  set (w0 := set_grad false w).
  destruct (MLPBetaActor_distribution_returns (ac_pi self) obs_dim act_dim
              batch obs w0 Hpi Wobs Hobs Hna Hnb)
    as (alpha & beta & Nal & Nbe & Hd).
  pose proof (dist_sample_Beta_run alpha beta (nan_checked obs w0)) as Hs.
  set (xs := fst (draw_each (draw_with rand_beta)
                    (combine (t_data alpha) (t_data beta))
                    (w_rng (nan_checked obs w0)))) in *.
  set (a_raw := mkTensor (t_shape alpha) xs) in *.
  match type of Hs with _ = (_, ?w1') => set (w1 := w1') in * end.
  assert (Hxs : Forall (within 0 1) xs)
    by (apply draw_with_within; assumption).
  assert (Hcl : clamp a_raw (-1) 1 = a_raw).
  { apply clamp_id. unfold entries_within_or_nan. simpl.
    apply within_is_within_or_nan.
    apply (within_weaken 0 1); [lra | lra | exact Hxs]. }
  destruct (log_prob_entries_returns beta_log_prob beta_support alpha beta
              a_raw eq_refl)
    as (lp & Hlp & _); [now apply beta_support_within|].
  assert (Hp1 : w_params w1 = w_params w)
    by (unfold w1; simpl; rewrite nan_checked_params; reflexivity).
  assert (Hmb : exists mu_bar w2,
             (if Rlt_dec 0 std_mu
              then bind (torch_normal obs std_mu)
                     (fun noisy =>
                        reading (fun ps =>
                                   MLPBetaActor_mean ps (ac_pi self) noisy))
              else ret mu) w1 = (Ok mu_bar, w2)).
  { destruct (Rlt_dec 0 std_mu) as [Hpos|Hneg].
    - destruct (torch_normal_run obs std_mu w1)
        as (noisy & w2 & Hn & Sn & Ln & Hps).
      assert (Wn : tensor_wf noisy)
        by (unfold tensor_wf in *; rewrite Ln, Sn; exact Wobs).
      assert (Hpi2 : MLPBetaActor_wf (w_params w2) (ac_pi self) obs_dim
                       act_dim) by (rewrite Hps, Hp1; exact Hpi).
      rewrite Hobs in Sn.
      destruct (MLPBetaActor_mean_run (w_params w2) (ac_pi self) obs_dim
                  act_dim noisy batch Hpi2 Wn Sn)
        as (_ & _ & mb & _ & _ & _ & _ & _ & _ & Hmb & _).
      exists mb, w2. rewrite (bind_run_ok _ _ _ _ _ Hn).
      unfold reading. rewrite Hmb. reflexivity.
    - exists mu, w1. reflexivity. }
  destruct Hmb as (mu_bar & w2 & Hmb).
  exists a_raw, (mkTensor batch (t_data y)), (sum_last lp), mu, mu_bar,
    (set_grad (w_grad w) w2).
  unfold step, no_grad. fold w0.
  rewrite (bind_run_ok _ _ _ _ _ Hd), (bind_run_ok _ _ _ _ _ Hs).
  rewrite Hcl.
  rewrite (bind_run_ok _ _ _ _ _
             (MLPBetaActor_log_prob_run (ac_pi self) (Beta alpha beta)
                a_raw lp w1 Hlp)).
  rewrite (bind_run_ok _ _ w1 w1 mu)
    by (apply reading_run; rewrite Hp1; exact Hmu).
  rewrite (bind_run_ok _ _ w1 w1 (mkTensor batch (t_data y)))
    by (apply reading_run; rewrite Hp1; exact Hcv).
  rewrite (bind_run_ok _ _ _ _ _ Hmb). reflexivity.
Qed.

(** ** MLPGaussianActor._distribution *)

(** What [Normal] returns, it returns for the broadcast arguments: a mean
    without NaN and a positive standard deviation. *)
Lemma torch_Normal_inv (loc scale : tensor) (d : distribution) :
  torch_Normal loc scale = Ok d ->
  exists s,
    broadcast_shapes (t_shape loc) (t_shape scale) = Ok s /\
    d = Normal (expand loc s) (expand scale s) /\
    no_nan (expand loc s) = true /\
    all_positive (expand scale s) = true.
Proof.
  unfold torch_Normal, broadcast2.
  destruct (broadcast_shapes (t_shape loc) (t_shape scale)) as [s|e];
    cbn [result_bind fst snd]; [|discriminate].
  destruct (no_nan (expand loc s)) eqn:P1; [|discriminate].
  destruct (all_positive (expand scale s)) eqn:P0; [|discriminate].
  simpl. intros H; inversion H; subst. exists s.
  repeat (split; [first [reflexivity | assumption]|]). assumption.
Qed.

Lemma no_nan_true (t : tensor) : no_nan t = true -> ~ In NaN (t_data t).
Proof.
  unfold no_nan. intros H Hin. rewrite forallb_forall in H.
  specialize (H NaN Hin). discriminate.
Qed.

(** [MLPGaussianActor._distribution] reads the parameters; the world it
    leaves is the one the test of the observation leaves. *)
Lemma MLPGaussianActor_distribution_run (self : MLPGaussianActor)
  (obs : tensor) (w : world) :
  MLPGaussianActor_distribution self obs w =
  (result_bind (Sequential_forward (w_params w) (mu_net self) obs)
     (fun mu =>
      result_bind (parameter (w_params w) (log_std self))
        (fun ls => torch_Normal mu (tensor_map (num_op1 exp) ls))),
   nan_checked obs w).
Proof.
  unfold MLPGaussianActor_distribution.
  rewrite (bind_run_ok _ _ _ _ _ (nan_check_run obs w)).
  unfold bind, reading, lift. rewrite nan_checked_params.
  destruct (Sequential_forward (w_params w) (mu_net self) obs); simpl;
    [|reflexivity].
  destruct (parameter (w_params w) (log_std self)); reflexivity.
Qed.

(** C5, amended. The constructor puts -0.5 in each of the [act_dim] entries
    of [log_std].  Whenever [MLPGaussianActor._distribution(obs)] returns, it
    returns the Normal distribution whose mean is [mu_net(obs)], which then
    holds no NaN, and whose standard deviation is [exp(log_std)], the same
    vector for every observation of the batch; it has printed [obs] first
    when [obs] holds a NaN.  And it does return as soon as [mu_net(obs)]
    returns and [Normal] accepts that mean and [exp(log_std)]. *)
Theorem MLPGaussianActor_distribution_spec (obs_dim act_dim : nat) :
  (forall hidden_sizes activation w,
     exists self w',
       MLPGaussianActor_init obs_dim act_dim hidden_sizes activation w
         = (Ok self, w') /\
       parameter (w_params w') (log_std self)
         = Ok (mkTensor [act_dim] (repeat (Real (-0.5)) act_dim)) /\
       MLPGaussianActor_wf (w_params w') self obs_dim act_dim) /\
  (forall self batch obs w d w',
     MLPGaussianActor_wf (w_params w) self obs_dim act_dim ->
     tensor_wf obs -> t_shape obs = batch ++ [obs_dim] ->
     MLPGaussianActor_distribution self obs w = (Ok d, w') ->
     exists mu ls std,
       Sequential_forward (w_params w) (mu_net self) obs = Ok mu /\
       parameter (w_params w) (log_std self) = Ok ls /\
       d = Normal mu std /\
       ~ In NaN (t_data mu) /\
       t_shape std = t_shape mu /\
       t_data std =
         concat (repeat (map (num_op1 exp) (t_data ls)) (numel batch)) /\
       w' = nan_checked obs w) /\
  (forall self obs w mu ls d,
     Sequential_forward (w_params w) (mu_net self) obs = Ok mu ->
     parameter (w_params w) (log_std self) = Ok ls ->
     torch_Normal mu (tensor_map (num_op1 exp) ls) = Ok d ->
     MLPGaussianActor_distribution self obs w = (Ok d, nan_checked obs w)).
Proof.
  split; [|split].
  - intros hidden_sizes activation w.
    destruct (MLPGaussianActor_init_run obs_dim act_dim hidden_sizes
                activation w)
      as (self & w' & extra & Hrun & _ & Hls & Hwf).
    eauto.
  - intros self batch obs w d w' (Hchain & ls & Hnth & Sls & Wls) Wobs Hobs
      Hrun.
    destruct (chain_forward (w_params w) (mu_net self) obs_dim act_dim obs
                batch Hchain Hobs Wobs) as (mu & Emu & Smu & Wmu).
    assert (Hpar : parameter (w_params w) (log_std self) = Ok ls)
      by (unfold parameter; rewrite Hnth; reflexivity).
    rewrite MLPGaussianActor_distribution_run, Emu, Hpar in Hrun.
    simpl in Hrun. injection Hrun as Hd Hw.
    destruct (torch_Normal_inv _ _ _ Hd) as (s & Es & -> & Pmu & _).
    replace (t_shape (tensor_map (num_op1 exp) ls)) with [act_dim] in Es
      by (simpl; congruence).
    rewrite Smu, broadcast_shapes_trailing in Es. injection Es as <-.
    assert (Emu' : expand mu (batch ++ [act_dim]) = mu)
      by (rewrite <- Smu; now apply expand_self).
    rewrite Emu' in *.
    exists mu, ls, (expand (tensor_map (num_op1 exp) ls) (batch ++ [act_dim])).
    split; [exact Emu|]. split; [exact Hpar|]. split; [reflexivity|].
    split; [now apply no_nan_true|]. split; [simpl; congruence|].
    split; [|symmetry; exact Hw].
    unfold expand; simpl. rewrite Sls. unfold pad_shape.
    rewrite length_app. simpl.
    replace (length batch + 1 - 1) with (length batch) by lia.
    apply expand_data_tile. rewrite length_map.
    unfold tensor_wf in Wls. rewrite Wls, Sls. simpl. lia.
  - intros self obs w mu ls d Emu Hpar Hd.
    rewrite MLPGaussianActor_distribution_run, Emu, Hpar. simpl.
    rewrite Hd. reflexivity.
Qed.

(** * Further properties of the code *)

(** ** discount_cumsum: zero discount, linearity, concatenation *)

Lemma discounted_sums_zero (x : list R) : discounted_sums 0 x = x.
Proof.
  induction x as [|a t IH]; simpl; [reflexivity|].
  rewrite IH. f_equal. lra.
Qed.

(** X1. With a discount of 0, [discount_cumsum] returns its input. *)
Theorem discount_cumsum_zero_discount (x : list R) :
  discount_cumsum x 0 = Ok x.
Proof. rewrite discount_cumsum_eq, discounted_sums_zero. reflexivity. Qed.

Lemma hd_map2_affine (c : R) (r1 r2 : list R) :
  length r1 = length r2 ->
  hd 0%R (map2 (fun a b => (c * a + b)%R) r1 r2) =
  (c * hd 0 r1 + hd 0 r2)%R.
Proof.
  destruct r1, r2; simpl; intros H; try discriminate; [lra | reflexivity].
Qed.

Lemma discounted_sums_affine (c d : R) (x : list R) :
  forall y,
    length x = length y ->
    discounted_sums d (map2 (fun a b => (c * a + b)%R) x y) =
    map2 (fun a b => (c * a + b)%R)
         (discounted_sums d x) (discounted_sums d y).
Proof.
  induction x as [|a t IH]; intros y H; destruct y as [|b u];
    try discriminate; [reflexivity|].
  simpl in H. injection H as H.
  change (map2 (fun a b => (c * a + b)%R) (a :: t) (b :: u))
    with ((c * a + b)%R :: map2 (fun a b => (c * a + b)%R) t u).
  simpl discounted_sums. rewrite (IH u H).
  unfold map2 at 3. simpl. fold (map2 (fun a b => (c * a + b)%R)
                                  (discounted_sums d t) (discounted_sums d u)).
  f_equal.
  rewrite hd_map2_affine by (rewrite !discounted_sums_length; exact H).
  ring.
Qed.

(** X2. [discount_cumsum] is linear in its vector: on two vectors of one
    length, the sums of [c * x + y] are [c] times the sums of [x] plus the
    sums of [y]. *)
Theorem discount_cumsum_linear (c d : R) (x y : list R) :
  length x = length y ->
  exists sx sy,
    discount_cumsum x d = Ok sx /\
    discount_cumsum y d = Ok sy /\
    discount_cumsum (map2 (fun a b => (c * a + b)%R) x y) d =
      Ok (map2 (fun a b => (c * a + b)%R) sx sy).
Proof.
  intros H. exists (discounted_sums d x), (discounted_sums d y).
  rewrite !discount_cumsum_eq. repeat split.
  f_equal. now apply discounted_sums_affine.
Qed.

Lemma discounted_sums_app_skipn (d : R) (x y : list R) :
  skipn (length x) (discounted_sums d (x ++ y)) = discounted_sums d y.
Proof. induction x as [|a t IH]; simpl; [reflexivity | exact IH]. Qed.

Lemma hd_nth_0 (l : list R) : hd 0%R l = nth 0 l 0%R.
Proof. destruct l; reflexivity. Qed.

Lemma discounted_sums_app_nth (d : R) (y : list R) (x : list R) :
  forall i,
    i <= length x ->
    nth i (discounted_sums d (x ++ y)) 0%R =
    (nth i (discounted_sums d x) 0
     + d ^ (length x - i) * hd 0 (discounted_sums d y))%R.
Proof.
  induction x as [|a t IH]; intros i Hi.
  - simpl in Hi. assert (i = 0) by lia. subst i. simpl.
    rewrite <- hd_nth_0. lra.
  - destruct i as [|i].
    + simpl. rewrite !hd_nth_0. rewrite (IH 0) by lia.
      rewrite Nat.sub_0_r, hd_nth_0. ring.
    + simpl. apply IH. simpl in Hi. lia.
Qed.

(** X3. On a concatenation [x ++ y] the last entries of [discount_cumsum]
    are the sums of [y] alone, and entry [i] of the first part is the sum of
    [x] at [i] plus [d^(len(x)-i)] times the first sum of [y]: a value
    appended to the rewards is discounted back through them. *)
Theorem discount_cumsum_app (d : R) (x y : list R) :
  exists z sx sy,
    discount_cumsum (x ++ y) d = Ok z /\
    discount_cumsum x d = Ok sx /\
    discount_cumsum y d = Ok sy /\
    skipn (length x) z = sy /\
    (forall i, i < length x ->
       nth i z 0%R = (nth i sx 0 + d ^ (length x - i) * hd 0 sy)%R).
Proof.
  exists (discounted_sums d (x ++ y)), (discounted_sums d x),
    (discounted_sums d y).
  rewrite !discount_cumsum_eq. repeat split.
  - apply discounted_sums_app_skipn.
  - intros i Hi. apply discounted_sums_app_nth. lia.
Qed.

(** ** combined_shape *)

(** [combined_shape(length, shape)] starts with [length], and a buffer of
    that shape holds [length] items of the entries one item of shape [shape]
    has. *)
Lemma combined_shape_numel (length : nat) (shape : option shape_arg) :
  hd 0 (combined_shape length shape) = length /\
  tl (combined_shape length shape) =
    match shape with
    | None => []
    | Some (Scalar_shape n) => [n]
    | Some (Tuple_shape s) => s
    end /\
  numel (combined_shape length shape) = length * shape_arg_numel shape.
Proof.
  destruct shape as [[n|s]|]; simpl; repeat split; lia.
Qed.

(** ** Actor.forward: exceptions *)

(** X4. [Actor.forward] raises exactly when [_distribution] raises, or [act]
    is given and [_log_prob_from_distribution] raises; the exception and the
    world left behind are those of the method that raised. *)
Theorem Actor_forward_raises {A} `{Actor A} (self : A) (obs : tensor)
  (act : option tensor) (w w' : world) (e : exn) :
  Actor_forward self obs act w = (Raise e, w') <->
  (_distribution self obs w = (Raise e, w') \/
   exists pi w1 a,
     _distribution self obs w = (Ok pi, w1) /\ act = Some a /\
     _log_prob_from_distribution self pi a w1 = (Raise e, w')).
Proof.
  unfold Actor_forward. split.
  - intros Hrun. apply bind_inv in Hrun.
    destruct Hrun as [(pi & w1 & Hd & Hk) | (e' & Hd & E)].
    + right. exists pi, w1. destruct act as [a|].
      * exists a. split; [assumption|]. split; [reflexivity|].
        apply bind_inv in Hk.
        destruct Hk as [(lo & w2 & Hl & Hret) | (e' & Hl & E)];
          [discriminate|].
        inversion E; subst e'. apply bind_inv in Hl.
        destruct Hl as [(l & w3 & Hlp & Hret) | (e' & Hlp & E')];
          [discriminate|].
        inversion E'; subst e'. exact Hlp.
      * discriminate.
    + left. inversion E; subst e'. exact Hd.
  - intros [Hd | (pi & w1 & a & Hd & -> & Hl)].
    + now apply bind_run_raise.
    + rewrite (bind_run_ok _ _ _ _ _ Hd).
      apply bind_run_raise. now apply bind_run_raise.
Qed.

(** ** count_vars and the parameters mlp allocates *)

Lemma read_parameters_app (ps : list tensor) (l1 l2 : list param)
  (t1 t2 : list tensor) :
  read_parameters ps l1 = Ok t1 -> read_parameters ps l2 = Ok t2 ->
  read_parameters ps (l1 ++ l2) = Ok (t1 ++ t2).
Proof.
  revert t1; induction l1 as [|p l1 IH]; intros t1 H1 H2; simpl in *.
  - inversion H1; subst. exact H2.
  - destruct (parameter ps p) as [t|e]; simpl in *; [|discriminate].
    destruct (read_parameters ps l1) as [ts|e]; simpl in *; [|discriminate].
    inversion H1; subst. rewrite (IH ts eq_refl H2). reflexivity.
Qed.

Lemma count_vars_app (ps : list tensor) (l1 l2 : list param) (n1 n2 : nat) :
  count_vars ps l1 = Ok n1 -> count_vars ps l2 = Ok n2 ->
  count_vars ps (l1 ++ l2) = Ok (n1 + n2).
Proof.
  unfold count_vars. intros H1 H2.
  destruct (read_parameters ps l1) as [t1|e] eqn:E1; simpl in H1;
    [|discriminate].
  destruct (read_parameters ps l2) as [t2|e] eqn:E2; simpl in H2;
    [|discriminate].
  rewrite (read_parameters_app ps l1 l2 t1 t2 E1 E2). simpl.
  inversion H1; inversion H2; subst.
  rewrite map_app, list_sum_app. reflexivity.
Qed.

Lemma count_vars_Linear (ps : list tensor) (l : Linear) :
  Linear_wf ps l ->
  count_vars ps [weight l; bias l] =
  Ok (out_features l * in_features l + out_features l).
Proof.
  intros (W & b & HW & Hb & SW & Sb).
  unfold count_vars, read_parameters, parameter. rewrite HW, Hb. simpl.
  rewrite SW, Sb. simpl. f_equal. lia.
Qed.

Lemma count_vars_chain (ps : list tensor) (net : Sequential) :
  forall i o,
    chain_wf ps i net o ->
    count_vars ps (Sequential_parameters net) =
    Ok (list_sum (map module_param_count net)).
Proof.
  induction net as [|m net IH]; intros i o H; [reflexivity|].
  destruct m as [l|a]; simpl in H.
  - destruct H as (_ & Hl & Hc).
    change (Sequential_parameters (Linear_module l :: net))
      with ([weight l; bias l] ++ Sequential_parameters net).
    apply count_vars_app; [now apply count_vars_Linear|].
    now apply (IH (out_features l) o).
  - exact (IH i o H).
Qed.

Lemma skipn_cons_nth {A} (d : A) (l : list A) :
  forall a, a < length l -> skipn a l = nth a l d :: skipn (S a) l.
Proof.
  induction l as [|x l IH]; intros a H; simpl in H; [lia|].
  destruct a as [|a]; [reflexivity|]. simpl. apply IH. lia.
Qed.

Lemma list_sum_cons (x : nat) (l : list nat) :
  list_sum (x :: l) = x + list_sum l.
Proof. reflexivity. Qed.

Lemma mlp_layers_count (sizes : list nat) (act oa : Activation) :
  forall n a p0,
    a + n + 1 = length sizes ->
    list_sum (map module_param_count (mlp_layers sizes act oa a n p0)) =
    mlp_param_count (skipn a sizes).
Proof.
  induction n as [|n IH]; intros a p0 H.
  - rewrite (skipn_cons_nth 0 sizes a) by lia.
    replace (S a) with (length sizes) by lia. rewrite skipn_all. reflexivity.
  - rewrite (skipn_cons_nth 0 sizes a) by lia.
    cbn [mlp_layers]. rewrite !map_cons, !list_sum_cons.
    rewrite (IH (a + 1) (p0 + 2)) by lia.
    replace (a + 1) with (S a) by lia.
    rewrite (skipn_cons_nth 0 sizes (S a)) by lia.
    cbn [mlp_param_count module_param_count in_features out_features]. lia.
Qed.

Lemma nn_Linear_run_wf (i o : nat) (w : world) :
  exists W b w',
    nn_Linear i o w =
      (Ok (mkLinear i o (length (w_params w)) (length (w_params w) + 1)), w') /\
    w_params w' = w_params w ++ [mkTensor [o; i] W; mkTensor [o] b] /\
    length W = o * i /\ length b = o.
Proof.
  unfold nn_Linear, bind, with_rng, new_parameter, ret. simpl.
  pose proof (draw_each_length
                (fun _ : unit =>
                   real_draw (rand_uniform (- init_bound i) (init_bound i)))
                (repeat tt (o * i)) (w_rng w)) as LW.
  destruct (draw_each _ (repeat tt (o * i)) (w_rng w)) as [W g1]. simpl in *.
  pose proof (draw_each_length
                (fun _ : unit =>
                   real_draw (rand_uniform (- init_bound i) (init_bound i)))
                (repeat tt o) g1) as Lb.
  destruct (draw_each _ (repeat tt o) g1) as [b g2]. simpl in *.
  rewrite repeat_length in LW, Lb.
  exists W, b. eexists. split.
  - rewrite length_app. simpl. reflexivity.
  - simpl. rewrite <- app_assoc. auto.
Qed.

(** The loop of [mlp] appends two well-formed parameters per layer. *)
Lemma mlp_loop_alloc (sizes : list nat) (act oa : Activation) :
  forall n a layers w,
    a + n < length sizes ->
    exists extra,
      w_params (snd (mlp_loop sizes act oa (seq a n) layers w)) =
        w_params w ++ extra /\
      length extra = 2 * n /\ Forall tensor_wf extra.
Proof.
  induction n as [|n IH]; intros a layers w Hlen.
  - exists []. simpl. rewrite app_nil_r. auto.
  - simpl.
    rewrite (bind_run_ok _ _ _ _ _ (index_run sizes a w ltac:(lia))).
    rewrite (bind_run_ok _ _ _ _ _ (index_run sizes (a + 1) w ltac:(lia))).
    destruct (nn_Linear_run_wf (nth a sizes 0) (nth (a + 1) sizes 0) w)
      as (W & b & w1 & Hrun & Hps & LW & Lb).
    rewrite (bind_run_ok _ _ _ _ _ Hrun).
    match goal with
    | |- context [mlp_loop sizes act oa (seq (S a) n) ?ls w1] =>
        destruct (IH (S a) ls w1 ltac:(lia)) as (extra & Hx & Hl & Hwf)
    end.
    exists ([mkTensor [nth (a + 1) sizes 0; nth a sizes 0] W;
             mkTensor [nth (a + 1) sizes 0] b] ++ extra).
    split; [rewrite Hx, Hps, <- app_assoc; reflexivity|].
    split; [rewrite length_app, Hl; simpl; lia|].
    apply Forall_app. split; [|assumption].
    repeat constructor; unfold tensor_wf; simpl; lia.
Qed.

(** X5. [count_vars] of a network built by [mlp(sizes, ...)] is the sum over
    the layers of [sizes(j+1) * sizes(j) + sizes(j+1)], and stays so when more
    parameters are created afterwards. *)
Theorem mlp_count_vars (sizes : list nat) (activation : Activation)
  (output_activation : option Activation) (w : world) :
  exists net w',
    mlp sizes activation output_activation w = (Ok net, w') /\
    forall more,
      count_vars (w_params w' ++ more) (Sequential_parameters net) =
      Ok (mlp_param_count sizes).
Proof.
  destruct (mlp_run sizes activation output_activation w)
    as (w' & extra & Hrun & _ & _ & _ & Hchain).
  eexists. exists w'. split; [exact Hrun|]. intros more.
  destruct (Nat.eq_dec (length sizes) 0) as [E|E].
  - destruct sizes; [reflexivity | discriminate].
  - specialize (Hchain ltac:(lia)).
    apply (chain_wf_extend _ more) in Hchain.
    rewrite (count_vars_chain _ _ _ _ Hchain).
    rewrite mlp_layers_count by lia. reflexivity.
Qed.

(** X6. [mlp(sizes, ...)] creates [2 * (len(sizes) - 1)] parameters, each
    with as many entries as its shape says, after the parameters that exist,
    which it leaves alone; it prints nothing and leaves the gradient mode. *)
Theorem mlp_allocates (sizes : list nat) (activation : Activation)
  (output_activation : option Activation) (w : world) :
  exists net w' extra,
    mlp sizes activation output_activation w = (Ok net, w') /\
    w_params w' = w_params w ++ extra /\
    length extra = 2 * (length sizes - 1) /\
    Forall tensor_wf extra /\
    w_stdout w' = w_stdout w /\ w_grad w' = w_grad w.
Proof.
  destruct (mlp_run sizes activation output_activation w)
    as (w' & extra & Hrun & Hps & Hout & Hgrad & _).
  eexists. exists w', extra. split; [exact Hrun|]. split; [exact Hps|].
  assert (Hsnd : w_params (snd (mlp sizes activation output_activation w))
                 = w_params w ++ extra) by (rewrite Hrun; exact Hps).
  unfold mlp in Hsnd. cbv zeta in Hsnd. rewrite range_len in Hsnd.
  destruct (Nat.eq_dec (length sizes) 0) as [E|E].
  - rewrite E in *. simpl in Hsnd.
    assert (extra = []).
    { apply (app_inv_head (w_params w)). rewrite app_nil_r. auto. }
    subst extra. simpl. auto.
  - match type of Hsnd with
    | context [mlp_loop sizes activation ?oa _ _ _] =>
        destruct (mlp_loop_alloc sizes activation oa (length sizes - 1) 0 []
                    w ltac:(lia)) as (extra' & Hx & Hl & Hwf)
    end.
    pose proof (eq_trans (eq_sym Hsnd) Hx) as Heq.
    apply app_inv_head in Heq. subst extra'. auto.
Qed.

(** ** The constructor of MLPActorCritic *)

(** All that is known of a network built from [[i] + hidden + [o]]. *)
Lemma mlp_net_full (i o : nat) (hidden : list nat) (act : Activation)
  (oa : option Activation) (w : world) :
  exists net w' extra,
    mlp ([i] ++ hidden ++ [o]) act oa w = (Ok net, w') /\
    w_params w' = w_params w ++ extra /\
    length extra = 2 * (length hidden + 1) /\
    Forall tensor_wf extra /\
    chain_wf (w_params w') i net o /\
    output_activation_of net
      (match oa with Some a => a | None => Identity end) /\
    first_is_Linear net /\
    (forall more,
       count_vars (w_params w' ++ more) (Sequential_parameters net) =
       Ok (mlp_param_count ([i] ++ hidden ++ [o]))).
Proof.
  destruct (mlp_net_run i o hidden act oa w)
    as (net & w' & extra & Hrun & Hps & _ & _ & Hchain & Hout).
  destruct (mlp_allocates ([i] ++ hidden ++ [o]) act oa w)
    as (net2 & w2 & extra2 & Hrun2 & Hps2 & Hlen & Hwf & _).
  destruct (mlp_count_vars ([i] ++ hidden ++ [o]) act oa w)
    as (net3 & w3 & Hrun3 & Hcount).
  destruct (mlp_run ([i] ++ hidden ++ [o]) act oa w)
    as (w4 & extra4 & Hrun4 & _).
  rewrite layer_sizes_length in Hlen, Hrun4.
  replace (length hidden + 2 - 1) with (S (length hidden)) in Hrun4 by lia.
  assert (Hfirst : first_is_Linear net).
  { rewrite Hrun in Hrun4. injection Hrun4 as Hnet _. rewrite Hnet.
    exact I. }
  rewrite Hrun in Hrun2, Hrun3.
  injection Hrun2 as <- <-. injection Hrun3 as <- <-.
  rewrite Hps in Hps2. apply app_inv_head in Hps2. subst extra2.
  exists net, w', extra. split; [exact Hrun|]. split; [exact Hps|].
  split; [rewrite Hlen; lia|].
  split; [exact Hwf|]. split; [exact Hchain|]. split; [exact Hout|].
  split; [exact Hfirst | exact Hcount].
Qed.

Lemma count_vars_extend (ps more : list tensor) (params : list param)
  (n : nat) :
  (forall more', count_vars (ps ++ more') params = Ok n) ->
  forall more', count_vars ((ps ++ more) ++ more') params = Ok n.
Proof. intros H more'. rewrite <- app_assoc. apply H. Qed.

Lemma MLPActorCritic_init_full (observation_space action_space : Box)
  (hidden_sizes : option (list nat)) (activation : option Activation)
  (obs_dim act_dim : nat) (s1 s2 : list nat) (w : world) :
  box_shape observation_space = obs_dim :: s1 ->
  box_shape action_space = act_dim :: s2 ->
  exists self w' extra,
    MLPActorCritic_init observation_space action_space hidden_sizes
      activation w = (Ok self, w') /\
    w_params w' = w_params w ++ extra /\
    length extra =
      6 * (length (match hidden_sizes with
                   | Some h => h
                   | None => [64; 64]
                   end) + 1) /\
    Forall tensor_wf extra /\
    MLPActorCritic_wf (w_params w') self obs_dim act_dim /\
    (first_is_Linear (alpha_net (ac_pi self)) /\
     first_is_Linear (beta_net (ac_pi self)) /\
     first_is_Linear (v_net (ac_v self))) /\
    count_vars (w_params w') (MLPBetaActor_parameters (ac_pi self)) =
      Ok (2 * mlp_param_count
                ([obs_dim] ++
                 match hidden_sizes with Some h => h | None => [64; 64] end
                 ++ [act_dim])) /\
    count_vars (w_params w') (MLPCritic_parameters (ac_v self)) =
      Ok (mlp_param_count
            ([obs_dim] ++
             match hidden_sizes with Some h => h | None => [64; 64] end
             ++ [1])).
Proof.
  intros Ho Ha. unfold MLPActorCritic_init, shape0. rewrite Ho, Ha.
  set (h := match hidden_sizes with Some h => h | None => [64; 64] end).
  set (a := match activation with Some a => a | None => Tanh end).
  destruct (mlp_net_full obs_dim act_dim h a (Some ELU) w)
    as (n1 & w1 & e1 & R1 & P1 & L1 & W1 & C1 & O1 & F1 & V1).
  destruct (mlp_net_full obs_dim act_dim h a (Some ELU) w1)
    as (n2 & w2 & e2 & R2 & P2 & L2 & W2 & C2 & O2 & F2 & V2).
  destruct (mlp_net_full obs_dim 1 h a None w2)
    as (n3 & w3 & e3 & R3 & P3 & L3 & W3 & C3 & O3 & F3 & V3).
  exists (mkMLPActorCritic (mkMLPBetaActor n1 n2) (mkMLPCritic n3)), w3,
    (e1 ++ e2 ++ e3).
  assert (RB : MLPBetaActor_init obs_dim act_dim h a w
               = (Ok (mkMLPBetaActor n1 n2), w2)).
  { unfold MLPBetaActor_init.
    rewrite (bind_run_ok _ _ _ _ _ R1), (bind_run_ok _ _ _ _ _ R2).
    reflexivity. }
  assert (RC : MLPCritic_init obs_dim h a w2 = (Ok (mkMLPCritic n3), w3)).
  { unfold MLPCritic_init. rewrite (bind_run_ok _ _ _ _ _ R3).
    reflexivity. }
  split.
  { unfold bind at 1 2. simpl.
    rewrite (bind_run_ok _ _ _ _ _ RB), (bind_run_ok _ _ _ _ _ RC).
    reflexivity. }
  split; [rewrite P3, P2, P1, <- !app_assoc; reflexivity|].
  split; [rewrite !length_app, L1, L2, L3; lia|].
  split; [repeat (apply Forall_app; split); assumption|].
  assert (C1' : chain_wf (w_params w3) obs_dim n1 act_dim).
  { rewrite P3, P2, <- app_assoc. now apply chain_wf_extend. }
  assert (C2' : chain_wf (w_params w3) obs_dim n2 act_dim).
  { rewrite P3. now apply chain_wf_extend. }
  split; [repeat split; assumption|].
  split; [repeat split; assumption|].
  split.
  - unfold MLPBetaActor_parameters. cbn [ac_pi alpha_net beta_net].
    replace (2 * mlp_param_count ([obs_dim] ++ h ++ [act_dim]))
      with (mlp_param_count ([obs_dim] ++ h ++ [act_dim])
            + mlp_param_count ([obs_dim] ++ h ++ [act_dim])) by lia.
    apply count_vars_app.
    + rewrite P3, P2, <- app_assoc. apply V1.
    + rewrite P3. apply V2.
  - unfold MLPCritic_parameters. cbn [ac_v v_net].
    rewrite <- (app_nil_r (w_params w3)). apply V3.
Qed.

(** X7. [MLPActorCritic(observation_space, action_space, hidden_sizes,
    activation)] raises [IndexError], creating nothing, when one of the two
    spaces has an empty shape.  Otherwise it returns a module that satisfies
    the invariant the properties of [step] assume, each of whose three
    networks starts with a [Linear]; it creates [6 * (len(hidden_sizes) + 1)]
    well-formed parameters after those that exist. *)
Theorem MLPActorCritic_init_spec (observation_space action_space : Box)
  (hidden_sizes : option (list nat)) (activation : option Activation)
  (w : world) :
  (box_shape observation_space = [] \/ box_shape action_space = [] ->
   MLPActorCritic_init observation_space action_space hidden_sizes
     activation w = (Raise IndexError, w)) /\
  (forall obs_dim s1 act_dim s2,
     box_shape observation_space = obs_dim :: s1 ->
     box_shape action_space = act_dim :: s2 ->
     exists self w' extra,
       MLPActorCritic_init observation_space action_space hidden_sizes
         activation w = (Ok self, w') /\
       w_params w' = w_params w ++ extra /\
       length extra =
         6 * (length (match hidden_sizes with
                      | Some h => h
                      | None => [64; 64]
                      end) + 1) /\
       Forall tensor_wf extra /\
       MLPActorCritic_wf (w_params w') self obs_dim act_dim /\
       first_is_Linear (alpha_net (ac_pi self)) /\
       first_is_Linear (beta_net (ac_pi self)) /\
       first_is_Linear (v_net (ac_v self))).
Proof.
  split.
  - unfold MLPActorCritic_init, shape0.
    destruct (box_shape observation_space) as [|n s];
      destruct (box_shape action_space) as [|m t];
      intros [H|H]; try discriminate; reflexivity.
  - intros obs_dim s1 act_dim s2 Ho Ha.
    destruct (MLPActorCritic_init_full observation_space action_space
                hidden_sizes activation obs_dim act_dim s1 s2 w Ho Ha)
      as (self & w' & extra & Hrun & Hps & Hlen & Hwf & Hinv
          & (F1 & F2 & F3) & _).
    exists self, w', extra. auto 10.
Qed.

(** X8. For a freshly built [MLPActorCritic], [count_vars] of the policy is
    twice, and of the critic once, the sum over the layers of
    [sizes(j+1) * sizes(j) + sizes(j+1)], the sizes being
    [[obs_dim] + hidden_sizes + [act_dim]] and [[obs_dim] + hidden_sizes +
    [1]]. *)
Theorem MLPActorCritic_count_vars (observation_space action_space : Box)
  (hidden_sizes : list nat) (activation : option Activation)
  (obs_dim act_dim : nat) (s1 s2 : list nat) (w : world) :
  box_shape observation_space = obs_dim :: s1 ->
  box_shape action_space = act_dim :: s2 ->
  exists self w',
    MLPActorCritic_init observation_space action_space (Some hidden_sizes)
      activation w = (Ok self, w') /\
    count_vars (w_params w') (MLPBetaActor_parameters (ac_pi self)) =
      Ok (2 * mlp_param_count ([obs_dim] ++ hidden_sizes ++ [act_dim])) /\
    count_vars (w_params w') (MLPCritic_parameters (ac_v self)) =
      Ok (mlp_param_count ([obs_dim] ++ hidden_sizes ++ [1])).
Proof.
  intros Ho Ha.
  destruct (MLPActorCritic_init_full observation_space action_space
              (Some hidden_sizes) activation obs_dim act_dim s1 s2 w Ho Ha)
    as (self & w' & extra & Hrun & _ & _ & _ & _ & _ & Hpi & Hv).
  exists self, w'. auto.
Qed.

(** ** Observations of the wrong width *)

Lemma Sequential_forward_shape_error (ps : list tensor) (net : Sequential)
  (i o : nat) (x : tensor) :
  chain_wf ps i net o -> first_is_Linear net ->
  (forall batch, t_shape x <> batch ++ [i]) ->
  Sequential_forward ps net x = Raise RuntimeError.
Proof.
  destruct net as [|[l|a] rest]; simpl; try contradiction.
  intros (Hi & (W & b & HW & Hb & SW & Sb) & _) _ Hx.
  unfold Linear_forward, parameter. rewrite HW, Hb. simpl.
  unfold F_linear. rewrite SW.
  destruct (split_last (t_shape x)) as [[batch k]|] eqn:E; [|reflexivity].
  apply split_last_inv in E.
  destruct (Nat.eqb_spec k (in_features l)) as [->|N]; [|reflexivity].
  exfalso. apply (Hx batch). rewrite E, Hi. reflexivity.
Qed.

(** The gradient mode [no_grad] restores does not show in the world the
    test of the observation leaves. *)
Lemma nan_checked_set_grad (obs : tensor) (w : world) :
  set_grad (w_grad w) (nan_checked obs (set_grad false w))
  = nan_checked obs w.
Proof.
  unfold nan_checked, set_grad. destruct (count_nan obs =? 0); simpl.
  - apply world_eta.
  - reflexivity.
Qed.

Lemma nan_checked_rng (obs : tensor) (w : world) :
  w_rng (nan_checked obs w) = w_rng w.
Proof. unfold nan_checked. destruct (count_nan obs =? 0); reflexivity. Qed.

(** X9. On an observation whose last dimension is not [obs_dim] (or that has
    no dimension), [step], [act] and the critic raise [RuntimeError].
    Nothing is drawn from the random number generator.  With [eval], [step]
    leaves the world as it found it; without, [step] and [act] have printed
    the observation first when it holds a NaN, and only then. *)
Theorem step_shape_error (self : MLPActorCritic) (obs_dim act_dim : nat)
  (obs : tensor) (std_mu : R) (w : world) :
  MLPActorCritic_wf (w_params w) self obs_dim act_dim ->
  first_is_Linear (alpha_net (ac_pi self)) ->
  first_is_Linear (v_net (ac_v self)) ->
  (forall batch, t_shape obs <> batch ++ [obs_dim]) ->
  step self obs true std_mu w = (Raise RuntimeError, w) /\
  step self obs false std_mu w = (Raise RuntimeError, nan_checked obs w) /\
  act self obs w = (Raise RuntimeError, nan_checked obs w) /\
  w_rng (nan_checked obs w) = w_rng w /\
  (count_nan obs = 0 -> nan_checked obs w = w) /\
  MLPCritic_forward (w_params w) (ac_v self) obs = Raise RuntimeError.
Proof.
  intros ((Ha & _) & Hv) Fa Fv Hobs.
  pose proof (Sequential_forward_shape_error _ _ _ _ obs Ha Fa Hobs) as Ea.
  pose proof (Sequential_forward_shape_error _ _ _ _ obs Hv Fv Hobs) as Ev.
  assert (Hfalse : forall s,
             step self obs false s w
             = (Raise RuntimeError, nan_checked obs w)).
  { intros s. unfold step, no_grad.
    assert (Hd : MLPBetaActor_distribution (ac_pi self) obs (set_grad false w)
                 = (Raise RuntimeError,
                    nan_checked obs (set_grad false w))).
    { rewrite MLPBetaActor_distribution_run.
      change (w_params (set_grad false w)) with (w_params w).
      rewrite Ea. reflexivity. }
    rewrite (bind_run_raise _ _ _ _ _ Hd).
    rewrite nan_checked_set_grad. reflexivity. }
  split; [|split; [|split; [|split; [|split]]]].
  - rewrite step_eval_run. unfold MLPBetaActor_mean. rewrite Ea. reflexivity.
  - apply Hfalse.
  - unfold act. now apply bind_run_raise.
  - apply nan_checked_rng.
  - apply nan_checked_clean.
  - unfold MLPCritic_forward. rewrite Ev. reflexivity.
Qed.

(** ** The mean of the Beta policy *)

Lemma step_eval_returns_mean (self : MLPActorCritic) (obs_dim act_dim : nat)
  (batch : list nat) (obs : tensor) (std_mu : R) (w : world) :
  MLPActorCritic_wf (w_params w) self obs_dim act_dim ->
  tensor_wf obs -> t_shape obs = batch ++ [obs_dim] ->
  exists m,
    MLPBetaActor_mean (w_params w) (ac_pi self) obs = Ok m /\
    t_shape m = batch ++ [act_dim] /\
    entries_within_or_nan 0 1 m /\
    step self obs true std_mu w = (Ok (Eval_action m), w).
Proof.
  intros (Hpi & _) Wobs Hobs.
  destruct (MLPBetaActor_mean_run (w_params w) (ac_pi self) obs_dim act_dim
              obs batch Hpi Wobs Hobs)
    as (_ & _ & m & _ & _ & _ & _ & _ & _ & Hm & Sm & Pm).
  exists m. repeat (split; [assumption|]).
  rewrite step_eval_run, Hm. simpl. rewrite clamp_id; [reflexivity|].
  unfold entries_within_or_nan in *.
  apply (within_or_nan_weaken 0 1); [lra | lra | exact Pm].
Qed.

(** X10. On an observation of [obs_dim] features the mean of the Beta
    policy, [alpha / (alpha + beta)], is between 0 and 1, or NaN, in every
    entry, so with [eval] set [step] returns it unchanged by the clamp; it
    leaves the whole world, the random number generator included, as it
    found it, whatever [std_mu]. *)
Theorem step_eval_mean (self : MLPActorCritic) (obs_dim act_dim : nat)
  (batch : list nat) (obs : tensor) (std_mu : R) (w : world) :
  MLPActorCritic_wf (w_params w) self obs_dim act_dim ->
  tensor_wf obs -> t_shape obs = batch ++ [obs_dim] ->
  exists m,
    MLPBetaActor_mean (w_params w) (ac_pi self) obs = Ok m /\
    t_shape m = batch ++ [act_dim] /\
    entries_within_or_nan 0 1 m /\
    step self obs true std_mu w = (Ok (Eval_action m), w).
Proof. apply step_eval_returns_mean. Qed.

(** X11. Whenever [step] returns without [eval] on an observation of
    [obs_dim] features, its fourth value is the mean of the policy for that
    observation, which is the action [step] returns for it with [eval] set,
    and without noise ([std_mu <= 0], the default) its fifth value is its
    fourth. *)
Theorem step_mean_consistent (self : MLPActorCritic) (obs_dim act_dim : nat)
  (batch : list nat) (obs : tensor) (std_mu : R) (w w' : world)
  (a v logp_a mu mu_bar : tensor) :
  MLPActorCritic_wf (w_params w) self obs_dim act_dim ->
  tensor_wf obs -> t_shape obs = batch ++ [obs_dim] ->
  step self obs false std_mu w = (Ok (Rollout a v logp_a mu mu_bar), w') ->
  MLPBetaActor_mean (w_params w) (ac_pi self) obs = Ok mu /\
  (~ (0 < std_mu)%R -> mu_bar = mu) /\
  step self obs true std_mu w = (Ok (Eval_action mu), w).
Proof.
  intros Hwf Wobs Hobs Hstep.
  destruct (step_rollout_inv self obs std_mu w w' _ Hstep)
    as (pi & a_raw & w1 & lp & v' & mu' & mu_bar' & w2
        & _ & _ & _ & _ & Hmu & _ & Hmb & Hr & _).
  injection Hr as -> -> -> -> ->.
  destruct (step_eval_returns_mean self obs_dim act_dim batch obs std_mu w
              Hwf Wobs Hobs) as (m & Hm & _ & _ & Heval).
  rewrite Hmu in Hm. injection Hm as <-.
  split; [exact Hmu|]. split; [|exact Heval].
  intros Hneg. destruct (Rlt_dec 0 std_mu) as [Hpos|_]; [contradiction|].
  unfold ret in Hmb. now inversion Hmb.
Qed.

(** ** The shapes of what step returns *)

Lemma sum_last_shape (t : tensor) (batch : list nat) (k : nat) :
  t_shape t = batch ++ [k] ->
  t_shape (sum_last t) = batch /\
  length (t_data (sum_last t)) = numel batch.
Proof.
  intros H. unfold sum_last. rewrite H, split_last_app. simpl.
  rewrite length_map, length_seq. auto.
Qed.

(** X12. Whenever [step] returns without [eval] on observations of shape
    [batch + (obs_dim,)], it returns an action, a mean and a noisy mean of
    shape [batch + (act_dim,)] and a value and a log-probability of shape
    [batch], one entry per observation; it leaves the parameters and the
    gradient mode as it found them. *)
Theorem step_rollout_shapes (self : MLPActorCritic) (obs_dim act_dim : nat)
  (batch : list nat) (obs : tensor) (std_mu : R) (w w' : world)
  (a v logp_a mu mu_bar : tensor) :
  MLPActorCritic_wf (w_params w) self obs_dim act_dim ->
  tensor_wf obs -> t_shape obs = batch ++ [obs_dim] ->
  step self obs false std_mu w = (Ok (Rollout a v logp_a mu mu_bar), w') ->
  t_shape a = batch ++ [act_dim] /\
  t_shape mu = batch ++ [act_dim] /\
  t_shape mu_bar = batch ++ [act_dim] /\
  t_shape v = batch /\ length (t_data v) = numel batch /\
  t_shape logp_a = batch /\ length (t_data logp_a) = numel batch /\
  w_params w' = w_params w /\ w_grad w' = w_grad w.
Proof.
  intros (Hpi & Hv) Wobs Hobs Hstep.
  pose proof (keeps_step self obs false std_mu w) as Hkeep.
  rewrite Hstep in Hkeep. simpl in Hkeep.
  destruct (step_rollout_inv self obs std_mu w w' _ Hstep)
    as (pi & a_raw & w1 & lp & v' & mu' & mu_bar' & w2
        & Hd & Hs & Hp1 & Hlp & Hmu & Hcv & Hmb & Hr & Hw').
  injection Hr as -> -> -> -> ->.
  destruct (MLPBetaActor_mean_run (w_params w) (ac_pi self) obs_dim act_dim
              obs batch Hpi Wobs Hobs)
    as (a0 & b0 & m & Ea & Eb & Sa & Sb & _ & _ & Hm & Sm & _).
  rewrite Hmu in Hm. injection Hm as <-.
  destruct (MLPCritic_forward_batch (w_params w) (ac_v self) obs_dim obs batch
              Hv Wobs Hobs) as (y & _ & _ & Hcv' & Ly).
  rewrite Hcv in Hcv'. injection Hcv' as ->.
  pose proof Hpi as (_ & Oa & _ & Ob).
  destruct (MLPBetaActor_distribution_inv _ _ _ _ _ Oa Ob Hd)
    as (a0' & b0' & s & Ea' & Eb' & Es & -> & _ & _ & _).
  change (w_params (set_grad false w)) with (w_params w) in Ea', Eb'.
  rewrite Ea in Ea'. injection Ea' as <-.
  rewrite Eb in Eb'. injection Eb' as <-.
  rewrite Sa, Sb, broadcast_shapes_same in Es. injection Es as <-.
  rewrite dist_sample_Beta_run in Hs. injection Hs as <- _.
  simpl in Hlp. apply log_prob_entries_inv in Hlp. destruct Hlp as [_ Hlp].
  cbn [t_shape clamp tensor_map expand] in Hlp.
  rewrite broadcast_shapes_same in Hlp. injection Hlp as Slp.
  destruct (sum_last_shape lp batch act_dim (eq_sym Slp)) as (Ssum & Lsum).
  split; [reflexivity|]. split; [exact Sm|]. split.
  { destruct (Rlt_dec 0 std_mu) as [Hpos|Hneg].
    - apply bind_inv in Hmb.
      destruct Hmb as [(noisy & w3 & Hn & Hrd) | (e & _ & ?)];
        [|discriminate].
      destruct (torch_normal_run obs std_mu w1)
        as (noisy' & w3' & Hn' & Sn & Ln & Hps).
      rewrite Hn in Hn'. injection Hn' as <- <-.
      assert (Wn : tensor_wf noisy)
        by (unfold tensor_wf in *; rewrite Ln, Sn; exact Wobs).
      rewrite Hobs in Sn.
      destruct (MLPBetaActor_mean_run (w_params w) (ac_pi self) obs_dim
                  act_dim noisy batch Hpi Wn Sn)
        as (_ & _ & mb & _ & _ & _ & _ & _ & _ & Hmb & Smb & _).
      unfold reading in Hrd. rewrite Hps, Hp1, Hmb in Hrd.
      injection Hrd as <- _. exact Smb.
    - unfold ret in Hmb. injection Hmb as <- _. exact Sm. }
  split; [reflexivity|]. split; [exact Ly|].
  split; [exact Ssum|]. split; [exact Lsum|].
  split; [exact Hkeep|]. rewrite Hw'. reflexivity.
Qed.

(** ** Forward passes and the parameters *)

Lemma keeps_MLPGaussianActor_distribution (self : MLPGaussianActor)
  (obs : tensor) :
  keeps_params (MLPGaussianActor_distribution self obs).
Proof. unfold MLPGaussianActor_distribution. auto 8 with keeps. Qed.

Lemma keeps_MLPGaussianActor_log_prob (self : MLPGaussianActor)
  (pi : distribution) (a : tensor) :
  keeps_params (MLPGaussianActor_log_prob_from_distribution self pi a).
Proof. unfold MLPGaussianActor_log_prob_from_distribution. auto with keeps. Qed.

Lemma keeps_Actor_forward {A} `{Actor A} (self : A) (obs : tensor)
  (act : option tensor) :
  keeps_params (_distribution self obs) ->
  (forall pi a, keeps_params (_log_prob_from_distribution self pi a)) ->
  keeps_params (Actor_forward self obs act).
Proof.
  intros Hd Hl. unfold Actor_forward.
  apply keeps_bind; [exact Hd|]. intros pi.
  apply keeps_bind; [|intro; apply keeps_ret].
  destruct act as [a|]; [|apply keeps_ret].
  apply keeps_bind; [apply Hl | intro; apply keeps_ret].
Qed.

(** X13. [Actor.forward] of the Beta policy and of the Gaussian policy
    leaves every parameter as it found it, with or without [act], whether it
    returns or raises. *)
Theorem Actor_forward_keeps_parameters (beta_actor : MLPBetaActor)
  (gaussian_actor : MLPGaussianActor) (obs : tensor) (act : option tensor)
  (w : world) :
  w_params (snd (Actor_forward beta_actor obs act w)) = w_params w /\
  w_params (snd (Actor_forward gaussian_actor obs act w)) = w_params w.
Proof.
  split.
  - apply (keeps_Actor_forward beta_actor obs act).
    + apply keeps_MLPBetaActor_distribution.
    + intros pi a. apply keeps_MLPBetaActor_log_prob.
  - apply (keeps_Actor_forward gaussian_actor obs act).
    + apply keeps_MLPGaussianActor_distribution.
    + intros pi a. apply keeps_MLPGaussianActor_log_prob.
Qed.

(** ** step, act and Actor.forward together *)

(** X14. Whenever [step] returns without [eval], the log-probability it
    returns for its action is the one [Actor.forward] of the policy computes
    for the same observation and that action, and the distribution is the
    same, as long as the parameters are those [step] ran with; [forward]
    prints the observation when it holds a NaN, and leaves the world as it
    found it otherwise. *)
Theorem step_logp_matches_forward (self : MLPActorCritic) (obs : tensor)
  (std_mu : R) (w w' : world) (a v logp_a mu mu_bar : tensor) :
  step self obs false std_mu w = (Ok (Rollout a v logp_a mu mu_bar), w') ->
  exists pi,
    forall w2,
      w_params w2 = w_params w ->
      Actor_forward (ac_pi self) obs (Some a) w2 =
      (Ok (pi, Some logp_a), nan_checked obs w2).
Proof.
  intros Hstep.
  destruct (step_rollout_inv self obs std_mu w w' _ Hstep)
    as (pi & a_raw & w1 & lp & v' & mu' & mu_bar' & w2
        & Hd & _ & _ & Hlp & _ & _ & _ & Hr & _).
  injection Hr as -> -> -> -> ->.
  exists pi. intros w3 Hw3.
  assert (Hd3 : MLPBetaActor_distribution (ac_pi self) obs w3
                = (Ok pi, nan_checked obs w3)).
  { rewrite MLPBetaActor_distribution_run in Hd |- *.
    change (w_params (set_grad false w)) with (w_params w) in Hd.
    rewrite Hw3. injection Hd as Hd. rewrite Hd. reflexivity. }
  unfold Actor_forward.
  cbn [_distribution _log_prob_from_distribution Actor_MLPBetaActor].
  rewrite (bind_run_ok _ _ _ _ _ Hd3).
  rewrite (bind_run_ok _ _ (nan_checked obs w3) (nan_checked obs w3)
             (Some (sum_last lp))); [reflexivity|].
  rewrite (bind_run_ok _ _ _ _ _
             (MLPBetaActor_log_prob_run (ac_pi self) pi
                (clamp a_raw (-1) 1) lp (nan_checked obs w3) Hlp)).
  reflexivity.
Qed.

Lemma step_rollout_result (self : MLPActorCritic) (obs : tensor)
  (std_mu : R) (w w' : world) (r : step_output) :
  step self obs false std_mu w = (Ok r, w') ->
  exists a v lp mu mb, r = Rollout a v lp mu mb.
Proof.
  unfold step, no_grad.
  destruct (bind _ _ (set_grad false w)) as [r0 w0] eqn:Hb.
  intros E; inversion E; subst; clear E.
  repeat (apply bind_inv in Hb;
          destruct Hb as [(? & ? & _ & Hb) | (? & _ & ?)];
          [|discriminate]).
  inversion Hb; subst. eauto 6.
Qed.

(** X15. [act(obs)] returns the action of [step(obs)] run with its defaults
    and raises what that call raises; the world it leaves is the one [step]
    leaves. *)
Theorem act_is_step_action (self : MLPActorCritic) (obs : tensor)
  (w : world) :
  act self obs w =
  (match fst (step self obs false (-1) w) with
   | Ok r => Ok (action_of r)
   | Raise e => Raise e
   end,
   snd (step self obs false (-1) w)).
Proof.
  unfold act, bind.
  destruct (step self obs false (-1) w) as [[r|e] w'] eqn:Hs; simpl;
    [|reflexivity].
  destruct (step_rollout_result _ _ _ _ _ _ Hs)
    as (a & v & lp & mu & mb & ->).
  reflexivity.
Qed.

(** ** The constructor of MLPGaussianActor *)

(** X16. [MLPGaussianActor(obs_dim, act_dim, hidden_sizes, activation)]
    creates [log_std] and then the parameters of [mu_net]:
    [1 + 2 * (len(hidden_sizes) + 1)] well-formed parameters after those
    that exist; [count_vars] of the actor is [act_dim] plus the weights and
    biases of the layers of sizes [[obs_dim] + hidden_sizes + [act_dim]]. *)
Theorem MLPGaussianActor_count_vars (obs_dim act_dim : nat)
  (hidden_sizes : list nat) (activation : Activation) (w : world) :
  exists self w' extra,
    MLPGaussianActor_init obs_dim act_dim hidden_sizes activation w
      = (Ok self, w') /\
    w_params w' = w_params w ++ extra /\
    length extra = 1 + 2 * (length hidden_sizes + 1) /\
    Forall tensor_wf extra /\
    log_std self = length (w_params w) /\
    count_vars (w_params w') (MLPGaussianActor_parameters self) =
      Ok (act_dim
          + mlp_param_count ([obs_dim] ++ hidden_sizes ++ [act_dim])).
Proof.
  unfold MLPGaussianActor_init.
  set (ls := mkTensor [act_dim]
               (map (nmul (Real (-0.5))) (repeat (Real 1) act_dim))).
  set (w1 := mkWorld (w_params w ++ [ls]) (w_rng w) (w_stdout w) (w_grad w)).
  destruct (mlp_net_full obs_dim act_dim hidden_sizes activation None w1)
    as (net & w2 & e2 & Hrun & Hps & Hlen & Hwf & _ & _ & _ & Hcount).
  exists (mkMLPGaussianActor (length (w_params w)) net), w2, ([ls] ++ e2).
  simpl in Hps.
  assert (Hnth : nth_error (w_params w2) (length (w_params w)) = Some ls).
  { rewrite Hps, <- app_assoc. rewrite nth_error_app2 by lia.
    rewrite Nat.sub_diag. reflexivity. }
  split.
  { unfold bind at 1. unfold new_parameter at 1. fold w1.
    rewrite (bind_run_ok _ _ _ _ _ Hrun). reflexivity. }
  split; [rewrite Hps, <- app_assoc; reflexivity|].
  split; [rewrite length_app, Hlen; reflexivity|].
  split.
  { apply Forall_app. split; [|exact Hwf]. repeat constructor.
    unfold tensor_wf, ls. cbn [t_data t_shape numel fold_right].
    rewrite length_map, repeat_length. lia. }
  split; [reflexivity|].
  unfold MLPGaussianActor_parameters. cbn [log_std mu_net].
  change (length (w_params w) :: Sequential_parameters net)
    with ([length (w_params w)] ++ Sequential_parameters net).
  apply count_vars_app.
  - unfold count_vars, read_parameters, parameter. rewrite Hnth.
    unfold ls. cbn. f_equal. lia.
  - rewrite <- (app_nil_r (w_params w2)). apply Hcount.
Qed.

End Model.

(** * The small instance satisfies the invariants *)

Lemma demo_critic_wf : MLPCritic_wf demo_params demo_critic 1.
Proof.
  unfold MLPCritic_wf, demo_critic; simpl.
  split; [reflexivity|]. split; [|reflexivity].
  eexists. eexists. simpl. repeat split; reflexivity.
Qed.

Lemma demo_actor_wf : MLPBetaActor_wf demo_params demo_actor 1 1.
Proof.
  unfold MLPBetaActor_wf, demo_actor; simpl.
  split; [|split; [|split]].
  - split; [reflexivity|]. split; [|reflexivity].
    eexists. eexists. simpl. repeat split; reflexivity.
  - eexists [_]. reflexivity.
  - split; [reflexivity|]. split; [|reflexivity].
    eexists. eexists. simpl. repeat split; reflexivity.
  - eexists [_]. reflexivity.
Qed.

Lemma demo_actor_critic_wf :
  MLPActorCritic_wf demo_params demo_actor_critic 1 1.
Proof. split; [apply demo_actor_wf | apply demo_critic_wf]. Qed.

Lemma demo_gaussian_wf :
  MLPGaussianActor_wf demo_gaussian_params demo_gaussian 1 1.
Proof.
  unfold MLPGaussianActor_wf, demo_gaussian; simpl. split.
  - split; [reflexivity|]. split; [|reflexivity].
    eexists. eexists. simpl. repeat split; reflexivity.
  - eexists. repeat split; reflexivity.
Qed.

Lemma demo_obs_wf : tensor_wf demo_obs.
Proof. reflexivity. Qed.

(** The outputs of the two networks of the policy for [demo_obs] hold two
    real numbers each. *)
Lemma demo_alpha_output (a0 : tensor) :
  Sequential_forward demo_params (alpha_net demo_actor) demo_obs = Ok a0 ->
  ~ In NaN (t_data a0) /\ t_data a0 <> [].
Proof.
  cbn. intros E. injection E as <-. cbn. split; [|discriminate].
  intros [H|[H|[]]]; discriminate.
Qed.

Lemma demo_beta_output (b0 : tensor) :
  Sequential_forward demo_params (beta_net demo_actor) demo_obs = Ok b0 ->
  ~ In NaN (t_data b0).
Proof.
  cbn. intros E. injection E as <-. cbn.
  intros [H|[H|[]]]; discriminate.
Qed.

(** On [demo_obs] the policy returns its distribution and prints nothing. *)
Lemma demo_distribution_returns :
  exists alpha beta,
    MLPBetaActor_distribution unit demo_actor demo_obs
      (mkWorld unit demo_params tt [] true)
    = (Ok (Beta alpha beta), mkWorld unit demo_params tt [] true).
Proof.
  destruct (MLPBetaActor_distribution_returns unit demo_actor 1 1 [2]
              demo_obs (mkWorld unit demo_params tt [] true)
              demo_actor_wf demo_obs_wf eq_refl
              demo_alpha_output demo_beta_output)
    as (alpha & beta & _ & _ & Hd).
  exists alpha, beta. exact Hd.
Qed.

(** With a sampler that always draws 0, [step] returns on [demo_obs]. *)
Lemma demo_step_returns (std_mu : R) :
  exists a v logp_a mu mu_bar w',
    step unit (fun _ _ g => (0%R, g)) (fun _ _ g => (0%R, g))
         (fun _ _ _ => 0%R) (fun _ _ _ => 0%R)
         demo_actor_critic demo_obs false std_mu
         (mkWorld unit demo_params tt [] true)
    = (Ok (Rollout a v logp_a mu mu_bar), w').
Proof.
  apply (step_rollout_returns unit (fun _ _ g => (0%R, g))
           (fun _ _ g => (0%R, g)) (fun _ _ _ => 0%R) (fun _ _ _ => 0%R)
           demo_actor_critic 1 1 [2] demo_obs std_mu
           (mkWorld unit demo_params tt [] true)
           demo_actor_critic_wf demo_obs_wf eq_refl
           demo_alpha_output demo_beta_output).
  intros a b g. simpl. lra.
Qed.

Lemma Rltb_exp (x : R) : Rltb 0 (exp x) = true.
Proof.
  unfold Rltb. destruct (Rlt_dec 0 (exp x)) as [_|N]; [reflexivity|].
  exfalso. apply N. apply exp_pos.
Qed.

(** On [demo_obs] the Gaussian policy returns its distribution. *)
Lemma demo_gaussian_returns :
  exists d,
    MLPGaussianActor_distribution unit demo_gaussian demo_obs
      (mkWorld unit demo_gaussian_params tt [] true)
    = (Ok d, mkWorld unit demo_gaussian_params tt [] true).
Proof.
  rewrite MLPGaussianActor_distribution_run. cbn.
  rewrite Rltb_exp. simpl. eexists. reflexivity.
Qed.

(** * The claims on concrete inputs *)

Lemma MLPCritic_forward_spec_witness :
  MLPCritic_wf demo_params demo_critic 1 /\ tensor_wf demo_obs /\
  exists v,
    MLPCritic_forward demo_params demo_critic demo_obs = Ok v /\
    t_shape v = [2] /\ length (t_data v) = 2.
Proof.
  split; [exact demo_critic_wf|]. split; [exact demo_obs_wf|].
  destruct (MLPCritic_forward_spec demo_params demo_critic 1 demo_obs
              demo_critic_wf demo_obs_wf) as [Hbatch _].
  destruct (Hbatch 2 eq_refl) as (y & v & _ & _ & Hv & Sv & _ & Lv).
  exists v. auto.
Defined.

(** C8, as stated, fails: for a batch whose first observation is NaN the
    first concentration is NaN, which is not above 1, and [Beta] rejects it;
    [_distribution] has printed the batch and raises [ValueError]. *)
Lemma MLPBetaActor_nan_concentration :
  (exists a0,
     Sequential_forward demo_params (alpha_net demo_actor) demo_nan_obs
       = Ok a0 /\
     hd (Real 0) (t_data (plus_two a0)) = NaN /\
     ~ entries_at_least 1 (plus_two a0)) /\
  MLPBetaActor_distribution unit demo_actor demo_nan_obs
    (mkWorld unit demo_params tt [] true)
  = (Raise ValueError,
     mkWorld unit demo_params tt [GotNanInObs demo_nan_obs] true).
Proof.
  split; [|reflexivity].
  eexists. split; [reflexivity|]. split; [reflexivity|].
  intros H. inversion H as [|x l Hx _]; subst. exact Hx.
Qed.

Lemma MLPBetaActor_concentrations_spec_witness :
  MLPBetaActor_wf demo_params demo_actor 1 1 /\
  exists c1 c0,
    MLPBetaActor_distribution unit demo_actor demo_obs
      (mkWorld unit demo_params tt [] true)
    = (Ok (Beta c1 c0), mkWorld unit demo_params tt [] true) /\
    entries_at_least 1 c1 /\ entries_at_least 1 c0.
Proof.
  split; [exact demo_actor_wf|].
  destruct demo_distribution_returns as (alpha & beta & Hd).
  destruct (MLPBetaActor_concentrations_spec unit demo_params demo_actor 1 1
              demo_obs demo_actor_wf) as (_ & Hret & _).
  destruct (Hret (mkWorld unit demo_params tt [] true) _ _ eq_refl Hd)
    as (c1 & c0 & E & H1 & H0).
  injection E as -> ->. exists c1, c0. auto.
Defined.

(** C2, as stated, fails: for a batch whose first observation is NaN [step]
    prints the batch and raises [ValueError], and for a batch of no
    observation it raises [RuntimeError]; it returns no tuple. *)
Lemma step_rollout_raises :
  step unit (fun _ _ g => (0%R, g)) (fun _ _ g => (0%R, g))
       (fun _ _ _ => 0%R) (fun _ _ _ => 0%R)
       demo_actor_critic demo_nan_obs false (-1)
       (mkWorld unit demo_params tt [] true)
  = (Raise ValueError,
     mkWorld unit demo_params tt [GotNanInObs demo_nan_obs] true) /\
  step unit (fun _ _ g => (0%R, g)) (fun _ _ g => (0%R, g))
       (fun _ _ _ => 0%R) (fun _ _ _ => 0%R)
       demo_actor_critic demo_empty_obs false (-1)
       (mkWorld unit demo_params tt [] true)
  = (Raise RuntimeError, mkWorld unit demo_params tt [] true).
Proof. split; reflexivity. Qed.

Lemma step_rollout_spec_witness :
  exists r w',
    step unit (fun _ _ g => (0%R, g)) (fun _ _ g => (0%R, g))
         (fun _ _ _ => 0%R) (fun _ _ _ => 0%R)
         demo_actor_critic demo_obs false (-1)
         (mkWorld unit demo_params tt [] true)
    = (Ok r, w') /\
    exists a v logp_a mu mu_bar,
      r = Rollout a v logp_a mu mu_bar /\
      entries_within (-1) 1 a /\
      MLPCritic_forward demo_params demo_critic demo_obs = Ok v.
Proof.
  destruct (demo_step_returns (-1)) as (a0 & v0 & l0 & m0 & b0 & w' & Hstep).
  eexists. exists w'. split; [exact Hstep|].
  destruct (step_rollout_spec unit (fun _ _ g => (0%R, g))
              (fun _ _ g => (0%R, g)) (fun _ _ _ => 0%R) (fun _ _ _ => 0%R)
              demo_actor_critic demo_obs (-1)
              (mkWorld unit demo_params tt [] true)) as [Hinv _].
  destruct (Hinv _ w' Hstep)
    as (pi & a_raw & w1 & lp & a & v & logp_a & mu & mu_bar
        & _ & _ & _ & Hin & Hv & _ & _ & Hr).
  exists a, v, logp_a, mu, mu_bar. auto.
Defined.

Lemma discount_cumsum_spec_witness :
  exists y,
    discount_cumsum [1; 2; 3]%R (1 / 2)%R = Ok y /\
    length y = 3 /\
    nth 0 y 0%R = (1 + 1 / 2 * nth 1 y 0)%R /\
    nth 2 y 0%R = 3%R.
Proof.
  destruct (discount_cumsum_spec [1; 2; 3]%R (1 / 2)%R)
    as (y & Hy & Hlen & _ & Hlast & Hstep).
  exists y. split; [exact Hy|]. split; [exact Hlen|]. split.
  - apply (Hstep 0). simpl. lia.
  - apply Hlast. simpl. lia.
Defined.

Lemma mlp_spec_witness :
  exists net w',
    mlp unit (fun _ _ g => (0%R, g)) [2; 3; 1] Tanh None
        (mkWorld unit [] tt [] true) = (Ok net, w') /\
    length net = 4 /\
    (exists l, nth_error net 2 = Some (Linear_module l) /\
               in_features l = 3 /\ out_features l = 1) /\
    nth_error net 1 = Some (Activation_module Tanh) /\
    nth_error net 3 = Some (Activation_module Identity).
Proof.
  destruct (mlp_spec unit (fun _ _ g => (0%R, g)) [2; 3; 1] Tanh None
              (mkWorld unit [] tt [] true))
    as (net & w' & Hrun & Hlen & Hnth & _).
  exists net, w'. split; [exact Hrun|]. split; [exact Hlen|].
  destruct (Hnth 0 ltac:(simpl; lia)) as (l0 & _ & _ & _ & Ha0).
  destruct (Hnth 1 ltac:(simpl; lia)) as (l1 & Hl1 & Hi1 & Ho1 & Ha1).
  split; [exists l1; auto|]. split; [exact Ha0 | exact Ha1].
Defined.

Lemma Actor_forward_spec_witness :
  exists pi,
    Actor_forward unit
      (H := Actor_MLPBetaActor unit (fun _ _ _ => 0%R) (fun _ _ _ => 0%R))
      demo_actor demo_obs None (mkWorld unit demo_params tt [] true)
    = (Ok (pi, None), mkWorld unit demo_params tt [] true).
Proof.
  destruct demo_distribution_returns as (alpha & beta & Hd).
  eexists.
  destruct (Actor_forward_spec unit
              (H := Actor_MLPBetaActor unit (fun _ _ _ => 0%R)
                      (fun _ _ _ => 0%R))
              demo_actor demo_obs None (mkWorld unit demo_params tt [] true))
    as [_ Hret].
  exact (proj1 (Hret _ _ Hd) eq_refl).
Defined.

(** C5, as stated, fails: for a batch whose first observation is NaN the
    mean is NaN in its first entry and [Normal] rejects it;
    [_distribution] has printed the batch and raises [ValueError]. *)
Lemma MLPGaussianActor_distribution_raises :
  MLPGaussianActor_distribution unit demo_gaussian demo_nan_obs
    (mkWorld unit demo_gaussian_params tt [] true)
  = (Raise ValueError,
     mkWorld unit demo_gaussian_params tt [GotNanInObs demo_nan_obs] true).
Proof. reflexivity. Qed.

Lemma MLPGaussianActor_distribution_spec_witness :
  MLPGaussianActor_wf demo_gaussian_params demo_gaussian 1 1 /\
  tensor_wf demo_obs /\
  exists mu std,
    MLPGaussianActor_distribution unit demo_gaussian demo_obs
      (mkWorld unit demo_gaussian_params tt [] true)
    = (Ok (Normal mu std), mkWorld unit demo_gaussian_params tt [] true) /\
    t_data std = [Real (exp (-0.5)); Real (exp (-0.5))].
Proof.
  split; [exact demo_gaussian_wf|]. split; [exact demo_obs_wf|].
  destruct demo_gaussian_returns as (d & Hd).
  destruct (MLPGaussianActor_distribution_spec unit (fun _ _ g => (0%R, g))
              1 1) as (_ & Hdist & _).
  destruct (Hdist demo_gaussian [2] demo_obs
              (mkWorld unit demo_gaussian_params tt [] true) d _
              demo_gaussian_wf demo_obs_wf eq_refl Hd)
    as (mu & ls & std & _ & Hls & E & _ & _ & Hstd & _).
  subst d. exists mu, std. split; [exact Hd|].
  rewrite Hstd. injection Hls as <-. reflexivity.
Defined.

(** C9, as stated, fails: for a batch whose first observation is NaN the
    action [step] returns with [eval] set is NaN in its first entry, which
    lies in no interval. *)
Lemma step_eval_action_nan :
  exists a,
    step unit (fun _ _ g => (0%R, g)) (fun _ _ g => (0%R, g))
         (fun _ _ _ => 0%R) (fun _ _ _ => 0%R)
         demo_actor_critic demo_nan_obs true (-1)
         (mkWorld unit demo_params tt [] true)
    = (Ok (Eval_action a), mkWorld unit demo_params tt [] true) /\
    hd (Real 0) (t_data a) = NaN /\
    ~ entries_within (-1) 1 a.
Proof.
  eexists. split; [reflexivity|]. split; [reflexivity|].
  intros H. inversion H as [|x l Hx _]; subst. exact Hx.
Qed.

Lemma step_act_action_within_witness :
  exists r w',
    step unit (fun _ _ g => (0%R, g)) (fun _ _ g => (0%R, g))
         (fun _ _ _ => 0%R) (fun _ _ _ => 0%R)
         demo_actor_critic demo_obs false (-1)
         (mkWorld unit demo_params tt [] true) = (Ok r, w') /\
    entries_within (-1) 1 (action_of r).
Proof.
  destruct (demo_step_returns (-1)) as (a0 & v0 & l0 & m0 & b0 & w' & Hstep).
  destruct (step_act_action_within unit
              (fun _ _ g => (0%R, g)) (fun _ _ g => (0%R, g))
              (fun _ _ _ => 0%R) (fun _ _ _ => 0%R)
              demo_actor_critic demo_obs (-1)
              (mkWorld unit demo_params tt [] true))
    as (_ & Hin & _).
  eexists. exists w'. split; [exact Hstep|]. exact (Hin _ _ Hstep).
Defined.

(** * The further properties on concrete inputs *)

Lemma discount_cumsum_linear_witness :
  length [1; 2]%R = length [3; 4]%R /\
  exists sx sy,
    discount_cumsum [1; 2]%R (1 / 2) = Ok sx /\
    discount_cumsum [3; 4]%R (1 / 2) = Ok sy /\
    discount_cumsum (map2 (fun a b => (2 * a + b)%R) [1; 2]%R [3; 4]%R)
                    (1 / 2)
      = Ok (map2 (fun a b => (2 * a + b)%R) sx sy).
Proof.
  split; [reflexivity|].
  exact (discount_cumsum_linear 2 (1 / 2) [1; 2]%R [3; 4]%R eq_refl).
Defined.

Lemma discount_cumsum_app_witness :
  exists z sy,
    discount_cumsum ([1; 2] ++ [3])%R (1 / 2) = Ok z /\
    discount_cumsum [3]%R (1 / 2) = Ok sy /\
    skipn 2 z = sy.
Proof.
  destruct (discount_cumsum_app (1 / 2) [1; 2]%R [3]%R)
    as (z & sx & sy & Hz & _ & Hy & Hskip & _).
  exists z, sy. auto.
Defined.

Lemma MLPActorCritic_init_spec_witness :
  MLPActorCritic_init unit (fun _ _ g => (0%R, g)) (mkBox []) (mkBox [2])
    None None (mkWorld unit [] tt [] true)
  = (Raise IndexError, mkWorld unit [] tt [] true) /\
  exists self w' extra,
    MLPActorCritic_init unit (fun _ _ g => (0%R, g)) (mkBox [3]) (mkBox [2])
      (Some [4]) None (mkWorld unit [] tt [] true) = (Ok self, w') /\
    w_params unit w' = extra /\ length extra = 12 /\
    MLPActorCritic_wf (w_params unit w') self 3 2.
Proof.
  split.
  - apply (MLPActorCritic_init_spec unit (fun _ _ g => (0%R, g)) (mkBox [])
             (mkBox [2]) None None (mkWorld unit [] tt [] true)).
    left. reflexivity.
  - destruct (MLPActorCritic_init_spec unit (fun _ _ g => (0%R, g))
                (mkBox [3]) (mkBox [2]) (Some [4]) None
                (mkWorld unit [] tt [] true)) as [_ Hok].
    destruct (Hok 3 [] 2 [] eq_refl eq_refl)
      as (self & w' & extra & Hrun & Hps & Hlen & _ & Hwf & _).
    exists self, w', extra. auto.
Defined.

Lemma MLPActorCritic_count_vars_witness :
  box_shape (mkBox [3]) = 3 :: [] /\ box_shape (mkBox [2]) = 2 :: [] /\
  exists self w',
    MLPActorCritic_init unit (fun _ _ g => (0%R, g)) (mkBox [3]) (mkBox [2])
      (Some [4]) None (mkWorld unit [] tt [] true) = (Ok self, w') /\
    count_vars (w_params unit w') (MLPBetaActor_parameters (ac_pi self))
      = Ok 52 /\
    count_vars (w_params unit w') (MLPCritic_parameters (ac_v self))
      = Ok 21.
Proof.
  split; [reflexivity|]. split; [reflexivity|].
  exact (MLPActorCritic_count_vars unit (fun _ _ g => (0%R, g)) (mkBox [3])
           (mkBox [2]) [4] None 3 2 [] [] (mkWorld unit [] tt [] true)
           eq_refl eq_refl).
Defined.

Lemma wrong_width (batch : list nat) : [2; 3] <> batch ++ [1].
Proof.
  intros H. apply (f_equal (fun l => last l 0)) in H.
  rewrite last_last in H. discriminate.
Qed.

Lemma step_shape_error_witness :
  MLPActorCritic_wf demo_params demo_actor_critic 1 1 /\
  first_is_Linear (alpha_net (ac_pi demo_actor_critic)) /\
  first_is_Linear (v_net (ac_v demo_actor_critic)) /\
  (forall batch,
     t_shape (mkTensor [2; 3]
                [NaN; Real 2; Real 3; Real 4; Real 5; Real 6])
     <> batch ++ [1]) /\
  step unit (fun _ _ g => (0%R, g)) (fun _ _ g => (0%R, g))
       (fun _ _ _ => 0%R) (fun _ _ _ => 0%R)
       demo_actor_critic
       (mkTensor [2; 3] [NaN; Real 2; Real 3; Real 4; Real 5; Real 6])
       false (-1) (mkWorld unit demo_params tt [] true)
  = (Raise RuntimeError,
     mkWorld unit demo_params tt
       [GotNanInObs
          (mkTensor [2; 3] [NaN; Real 2; Real 3; Real 4; Real 5; Real 6])]
       true) /\
  step unit (fun _ _ g => (0%R, g)) (fun _ _ g => (0%R, g))
       (fun _ _ _ => 0%R) (fun _ _ _ => 0%R)
       demo_actor_critic
       (mkTensor [2; 3] [NaN; Real 2; Real 3; Real 4; Real 5; Real 6])
       true (-1) (mkWorld unit demo_params tt [] true)
  = (Raise RuntimeError, mkWorld unit demo_params tt [] true).
Proof.
  split; [exact demo_actor_critic_wf|]. split; [exact I|].
  split; [exact I|]. split; [exact wrong_width|].
  destruct (step_shape_error unit (fun _ _ g => (0%R, g))
              (fun _ _ g => (0%R, g)) (fun _ _ _ => 0%R) (fun _ _ _ => 0%R)
              demo_actor_critic 1 1
              (mkTensor [2; 3] [NaN; Real 2; Real 3; Real 4; Real 5; Real 6])
              (-1) (mkWorld unit demo_params tt [] true)
              demo_actor_critic_wf I I wrong_width)
    as (Htrue & Hfalse & _).
  split; [exact Hfalse | exact Htrue].
Defined.

Lemma step_eval_mean_witness :
  MLPActorCritic_wf demo_params demo_actor_critic 1 1 /\
  tensor_wf demo_obs /\ t_shape demo_obs = [2] ++ [1] /\
  exists m,
    step unit (fun _ _ g => (0%R, g)) (fun _ _ g => (0%R, g))
         (fun _ _ _ => 0%R) (fun _ _ _ => 0%R)
         demo_actor_critic demo_obs true 1
         (mkWorld unit demo_params tt [] true)
    = (Ok (Eval_action m), mkWorld unit demo_params tt [] true) /\
    entries_within_or_nan 0 1 m.
Proof.
  split; [exact demo_actor_critic_wf|]. split; [exact demo_obs_wf|].
  split; [reflexivity|].
  destruct (step_eval_mean unit (fun _ _ g => (0%R, g))
              (fun _ _ g => (0%R, g)) (fun _ _ _ => 0%R) (fun _ _ _ => 0%R)
              demo_actor_critic 1 1 [2] demo_obs 1
              (mkWorld unit demo_params tt [] true)
              demo_actor_critic_wf demo_obs_wf eq_refl)
    as (m & _ & _ & Hin & Hstep).
  exists m. auto.
Defined.

Lemma step_mean_consistent_witness :
  MLPActorCritic_wf demo_params demo_actor_critic 1 1 /\
  tensor_wf demo_obs /\ t_shape demo_obs = [2] ++ [1] /\
  exists a v logp_a mu w',
    step unit (fun _ _ g => (0%R, g)) (fun _ _ g => (0%R, g))
         (fun _ _ _ => 0%R) (fun _ _ _ => 0%R)
         demo_actor_critic demo_obs false (-1)
         (mkWorld unit demo_params tt [] true)
    = (Ok (Rollout a v logp_a mu mu), w') /\
    step unit (fun _ _ g => (0%R, g)) (fun _ _ g => (0%R, g))
         (fun _ _ _ => 0%R) (fun _ _ _ => 0%R)
         demo_actor_critic demo_obs true (-1)
         (mkWorld unit demo_params tt [] true)
    = (Ok (Eval_action mu), mkWorld unit demo_params tt [] true).
Proof.
  assert (Hneg : ~ (0 < -1)%R) by lra.
  split; [exact demo_actor_critic_wf|]. split; [exact demo_obs_wf|].
  split; [reflexivity|].
  destruct (demo_step_returns (-1))
    as (a & v & logp_a & mu & mu_bar & w' & Hstep).
  destruct (step_mean_consistent unit (fun _ _ g => (0%R, g))
              (fun _ _ g => (0%R, g)) (fun _ _ _ => 0%R) (fun _ _ _ => 0%R)
              demo_actor_critic 1 1 [2] demo_obs (-1)
              (mkWorld unit demo_params tt [] true) w' a v logp_a mu mu_bar
              demo_actor_critic_wf demo_obs_wf eq_refl Hstep)
    as (_ & Hbar & Heval).
  rewrite (Hbar Hneg) in Hstep.
  exists a, v, logp_a, mu, w'. split; [exact Hstep | exact Heval].
Defined.

Lemma step_rollout_shapes_witness :
  MLPActorCritic_wf demo_params demo_actor_critic 1 1 /\
  tensor_wf demo_obs /\ t_shape demo_obs = [2] ++ [1] /\
  exists a v logp_a mu mu_bar w',
    step unit (fun _ _ g => (0%R, g)) (fun _ _ g => (0%R, g))
         (fun _ _ _ => 0%R) (fun _ _ _ => 0%R)
         demo_actor_critic demo_obs false 1
         (mkWorld unit demo_params tt [] true)
    = (Ok (Rollout a v logp_a mu mu_bar), w') /\
    t_shape a = [2; 1] /\ t_shape v = [2] /\ t_shape logp_a = [2].
Proof.
  split; [exact demo_actor_critic_wf|]. split; [exact demo_obs_wf|].
  split; [reflexivity|].
  destruct (demo_step_returns 1)
    as (a & v & logp_a & mu & mu_bar & w' & Hstep).
  destruct (step_rollout_shapes unit (fun _ _ g => (0%R, g))
              (fun _ _ g => (0%R, g)) (fun _ _ _ => 0%R) (fun _ _ _ => 0%R)
              demo_actor_critic 1 1 [2] demo_obs 1
              (mkWorld unit demo_params tt [] true) w' a v logp_a mu mu_bar
              demo_actor_critic_wf demo_obs_wf eq_refl Hstep)
    as (Sa & _ & _ & Sv & _ & Sl & _).
  exists a, v, logp_a, mu, mu_bar, w'. auto.
Defined.

Lemma step_logp_matches_forward_witness :
  exists pi a v logp_a mu mu_bar w',
    step unit (fun _ _ g => (0%R, g)) (fun _ _ g => (0%R, g))
         (fun _ _ _ => 0%R) (fun _ _ _ => 0%R)
         demo_actor_critic demo_obs false (-1)
         (mkWorld unit demo_params tt [] true)
    = (Ok (Rollout a v logp_a mu mu_bar), w') /\
    Actor_forward unit
      (H := Actor_MLPBetaActor unit (fun _ _ _ => 0%R) (fun _ _ _ => 0%R))
      demo_actor demo_obs (Some a) (mkWorld unit demo_params tt [] true)
    = (Ok (pi, Some logp_a), mkWorld unit demo_params tt [] true).
Proof.
  destruct (demo_step_returns (-1))
    as (a & v & logp_a & mu & mu_bar & w' & Hstep).
  destruct (step_logp_matches_forward unit (fun _ _ g => (0%R, g))
              (fun _ _ g => (0%R, g)) (fun _ _ _ => 0%R) (fun _ _ _ => 0%R)
              demo_actor_critic demo_obs (-1)
              (mkWorld unit demo_params tt [] true) w' a v logp_a mu mu_bar
              Hstep)
    as (pi & Hfwd).
  exists pi, a, v, logp_a, mu, mu_bar, w'. split; [exact Hstep|].
  exact (Hfwd (mkWorld unit demo_params tt [] true) eq_refl).
Defined.
